(** * telegrambot_auto_email: a shallow embedding of [app.js]

    The program relays a chat message to a language model, extracts a
    [{email, subject, body}] object from the model's answer
    ([getEmailDataFromAI]), builds an RFC 2822 message, encodes it in
    base64url and submits it to the mail provider ([sendMail]); the
    message handler registered by [startTelegramBot] acknowledges the
    outcome in the chat, and [main] chooses between the bot and the OAuth
    consent server.

    JavaScript strings are sequences of UTF-16 code units, modelled as
    [list N]; values are the values JSON can denote plus [undefined];
    [async] functions are modelled by their completion (normal or abrupt)
    together with the trace of the external effects they perform. *)

From Stdlib Require Import List NArith ZArith Bool Lia String Ascii.
Import ListNotations.

Set Warnings "-register-all".

(** ** Strings *)

Module JSString.

(** A code unit; every number below 65536 is one. *)
Definition code_unit := N.

Definition jsstring := list code_unit.

(** The code unit of an ASCII character of the source text. *)
Definition ch (a : ascii) : code_unit := N_of_ascii a.

(** The double quote. *)
Definition dquote : code_unit := 34%N.

Definition is_dquote (c : code_unit) : bool := (c =? dquote)%N.

(** An ASCII string literal of the source text. *)
Fixpoint lit (s : string) : jsstring :=
  match s with
  | EmptyString => []
  | String a s' => ch a :: lit s'
  end.

Definition jsstring_eqb (a b : jsstring) : bool :=
  if list_eq_dec N.eq_dec a b then true else false.

(** WhiteSpace and LineTerminator code units, the ones
    [String.prototype.trim] strips. *)
Definition is_trim_space (c : code_unit) : bool :=
  ((9 <=? c) && (c <=? 13) || (c =? 32) || (c =? 160) || (c =? 5760)
   || (8192 <=? c) && (c <=? 8202) || (c =? 8232) || (c =? 8233)
   || (c =? 8239) || (c =? 8287) || (c =? 12288) || (c =? 65279))%N.

Fixpoint trimStart (s : jsstring) : jsstring :=
  match s with
  | c :: s' => if is_trim_space c then trimStart s' else s
  | [] => []
  end.

Definition trimEnd (s : jsstring) : jsstring := rev (trimStart (rev s)).

(** [String.prototype.trim]. *)
Definition trim (s : jsstring) : jsstring := trimEnd (trimStart s).

(** [Array.prototype.join] on an array of strings. *)
Fixpoint join (sep : jsstring) (parts : list jsstring) : jsstring :=
  match parts with
  | [] => []
  | [p] => p
  | p :: rest => p ++ sep ++ join sep rest
  end.

End JSString.

Import JSString.

(** ** Regular expressions

    The four patterns of [app.js] are sequences of single-character
    atoms, starred or plussed character classes and the end anchor.  The
    matcher is the backtracking matcher of the language: a quantifier is
    greedy, it first tries to take one more character and gives one back
    when the rest of the pattern fails. *)

Module RegExp.

Inductive atom : Type :=
| One (cls : code_unit -> bool)
| Star (cls : code_unit -> bool)
| Plus (cls : code_unit -> bool)
| Eos.

Definition pattern := list atom.

Section Greedy.
Variable cls : code_unit -> bool.
Variable k : jsstring -> option jsstring.

(** [cls*] followed by the continuation [k]; the result is the matched
    text. *)
Fixpoint star (s : jsstring) : option jsstring :=
  match s with
  | x :: s' =>
      if cls x then
        match star s' with
        | Some m => Some (x :: m)
        | None => k s
        end
      else k s
  | [] => k []
  end.

End Greedy.

(** The text the pattern matches at the start of [s], if it matches. *)
Fixpoint matchp (p : pattern) : jsstring -> option jsstring :=
  match p with
  | [] => fun _ => Some []
  | One cls :: p' =>
      fun s =>
        match s with
        | x :: s' => if cls x then option_map (cons x) (matchp p' s') else None
        | [] => None
        end
  | Star cls :: p' => star cls (matchp p')
  | Plus cls :: p' =>
      fun s =>
        match s with
        | x :: s' =>
            if cls x then option_map (cons x) (star cls (matchp p') s') else None
        | [] => None
        end
  | Eos :: p' =>
      fun s =>
        match s with
        | [] => matchp p' []
        | _ :: _ => None
        end
  end.

(** [RegExp.prototype.exec] from index 0 for a pattern without the global
    flag, as [String.prototype.match] uses it: the match at the leftmost
    position that has one.  The result is element 0 of the match array. *)
Fixpoint exec (p : pattern) (s : jsstring) : option jsstring :=
  match matchp p s with
  | Some m => Some m
  | None =>
      match s with
      | [] => None
      | _ :: s' => exec p s'
      end
  end.

(** [String.prototype.replace] with a pattern without the global flag and
    a replacement text without [$]: the leftmost match is replaced. *)
Fixpoint replace_first (p : pattern) (rep s : jsstring) : jsstring :=
  match matchp p s with
  | Some m => rep ++ skipn (List.length m) s
  | None =>
      match s with
      | [] => []
      | c :: s' => c :: replace_first p rep s'
      end
  end.

(** [String.prototype.replace] with a global pattern: every match, left
    to right, without overlap.  [skip] counts the code units of the
    current match that are still to be dropped. *)
Fixpoint replace_all (p : pattern) (rep : jsstring) (skip : nat)
  (s : jsstring) : jsstring :=
  match s with
  | [] =>
      match skip with
      | O => match matchp p [] with Some _ => rep | None => [] end
      | S _ => []
      end
  | c :: s' =>
      match skip with
      | S n => replace_all p rep n s'
      | O =>
          match matchp p s with
          | Some [] => rep ++ c :: replace_all p rep 0 s'
          | Some (_ :: m) => rep ++ replace_all p rep (List.length m) s'
          | None => c :: replace_all p rep 0 s'
          end
      end
  end.

Definition chr (a : ascii) : code_unit -> bool := N.eqb (ch a).
Definition any : code_unit -> bool := fun _ => true.

(** [/\{.*\}/s] *)
Definition re_braces : pattern := [One (chr "{"); Star any; One (chr "}")].
(** [/\+/g] *)
Definition re_plus : pattern := [One (chr "+")].
(** [/\//g] *)
Definition re_slash : pattern := [One (chr "/")].
(** [/=+$/] *)
Definition re_padding : pattern := [Plus (chr "="); Eos].

End RegExp.

Import RegExp.

(** ** Values *)

Module JS.

(** A JSON numeric literal [-? int (. frac)? (e exp)?], kept exactly: it
    denotes [(-1)^neg * mantissa * 10^(exponent - scale)], where
    [mantissa] is the number written by the digits of the integer and the
    fraction part and [scale] is the number of fraction digits.  The
    Number the language computes from it is that real rounded to the
    nearest binary64. *)
Record number : Type := {
  num_neg : bool;
  num_mantissa : N;
  num_scale : N;
  num_exp_neg : bool;
  num_exp : N
}.

Definition exponent10 (n : number) : Z :=
  ((if num_exp_neg n then - Z.of_N (num_exp n) else Z.of_N (num_exp n))
   - Z.of_N (num_scale n))%Z.

(** The literal rounds to [+0] or [-0]: its mantissa is zero, or its
    magnitude is at most [2^-1075], half of the least positive binary64
    (a tie goes to the even neighbour, zero). *)
Definition number_is_zero (n : number) : bool :=
  (num_mantissa n =? 0)%N
  || ((exponent10 n <? 0)
      && (Z.of_N (num_mantissa n) * 2 ^ 1075 <=? 10 ^ (- exponent10 n)))%Z.

Inductive value : Type :=
| VUndefined
| VNull
| VBool (b : bool)
| VNumber (n : number)
| VString (s : jsstring)
| VArray (elems : list value)
| VObject (props : list (jsstring * value)).

(** What a [throw] carries.  [HostError] is an error object raised by a
    library or the network (fetch, the OAuth client, the Gmail client). *)
Inductive error : Type :=
| TypeError
| SyntaxError
| Error (message : string)
| HostError (id : N).

Inductive completion (A : Type) : Type :=
| Normal (a : A)
| Throw (e : error).
Arguments Normal {A} a.
Arguments Throw {A} e.

(** Own properties of an object created by [JSON.parse], in creation
    order. *)
Fixpoint lookup (k : jsstring) (props : list (jsstring * value)) : option value :=
  match props with
  | [] => None
  | (k', v) :: rest => if jsstring_eqb k k' then Some v else lookup k rest
  end.

(** [CreateDataProperty]: a repeated key overwrites the earlier value. *)
Fixpoint define_prop (k : jsstring) (v : value)
  (props : list (jsstring * value)) : list (jsstring * value) :=
  match props with
  | [] => [(k, v)]
  | (k', v') :: rest =>
      if jsstring_eqb k k' then (k', v) :: rest
      else (k', v') :: define_prop k v rest
  end.

(** [v.k] for a property name [k] that no built-in prototype defines
    (every name [app.js] reads this way is such: choices, message,
    content, email, subject, body, token, data, id, tokens,
    refresh_token). *)
Definition Get (v : value) (k : jsstring) : completion value :=
  match v with
  | VUndefined | VNull => Throw TypeError
  | VObject props =>
      Normal (match lookup k props with Some x => x | None => VUndefined end)
  | _ => Normal VUndefined
  end.

(** [v[0]] *)
Definition Get0 (v : value) : completion value :=
  match v with
  | VUndefined | VNull => Throw TypeError
  | VArray elems =>
      Normal (match elems with x :: _ => x | [] => VUndefined end)
  | VString s =>
      Normal (match s with c :: _ => VString [c] | [] => VUndefined end)
  | VObject props =>
      Normal (match lookup (lit "0") props with Some x => x | None => VUndefined end)
  | _ => Normal VUndefined
  end.

(** The rest of an optional chain [v?. ...]: skipped, with result
    [undefined], when [v] is [undefined] or [null]. *)
Definition optional (v : value) (rest : value -> completion value) :
  completion value :=
  match v with
  | VUndefined | VNull => Normal VUndefined
  | _ => rest v
  end.

(** [v.trim()] *)
Definition call_trim (v : value) : completion value :=
  match v with
  | VString s => Normal (VString (trim s))
  | _ => Throw TypeError
  end.

(** [text.match(re)] for a pattern without the global flag; [None] is
    [null], [Some m] an array whose element 0 is [m]. *)
Definition call_match (v : value) (re : pattern) : completion (option jsstring) :=
  match v with
  | VString s => Normal (exec re s)
  | _ => Throw TypeError
  end.

Definition ToBoolean (v : value) : bool :=
  match v with
  | VUndefined | VNull => false
  | VBool b => b
  | VNumber n => negb (number_is_zero n)
  | VString s => match s with [] => false | _ :: _ => true end
  | VArray _ | VObject _ => true
  end.

Section ToString.

(** [Number::toString] of the Number a literal denotes. *)
Variable Number_toString : number -> jsstring.

(** [ToString], as a template literal applies it.  An array joins its
    elements with a comma, [null] and [undefined] elements giving the
    empty string; an object created by [JSON.parse] gives
    ["[object Object]"], unless it has an own [toString] property, which
    is not callable and leaves only the inherited [valueOf], whose result
    is not primitive. *)
Fixpoint ToString (v : value) : completion jsstring :=
  match v with
  | VUndefined => Normal (lit "undefined")
  | VNull => Normal (lit "null")
  | VBool true => Normal (lit "true")
  | VBool false => Normal (lit "false")
  | VNumber n => Normal (Number_toString n)
  | VString s => Normal s
  | VArray elems =>
      (fix joined (l : list value) : completion jsstring :=
         match l with
         | [] => Normal []
         | x :: rest =>
             match
               match x with
               | VUndefined | VNull => Normal []
               | _ => ToString x
               end
             with
             | Throw e => Throw e
             | Normal s =>
                 match rest with
                 | [] => Normal s
                 | _ :: _ =>
                     match joined rest with
                     | Throw e => Throw e
                     | Normal t => Normal (s ++ lit "," ++ t)
                     end
                 end
             end
         end) elems
  | VObject props =>
      match lookup (lit "toString") props with
      | Some _ => Throw TypeError
      | None => Normal (lit "[object Object]")
      end
  end.

End ToString.

End JS.

Import JS.

(** ** JSON.parse

    The JSON grammar (ECMA-404) read one code unit at a time by a
    pushdown automaton: the stack holds the arrays and objects that are
    open, the mode says what may come next. *)

Module JSON.

Definition is_ws (c : code_unit) : bool :=
  ((c =? 9) || (c =? 10) || (c =? 13) || (c =? 32))%N.

Definition is_digit (c : code_unit) : bool := ((48 <=? c) && (c <=? 57))%N.

Definition hex_val (c : code_unit) : option N :=
  if is_digit c then Some (c - 48)%N
  else if ((97 <=? c) && (c <=? 102))%N then Some (c - 87)%N
  else if ((65 <=? c) && (c <=? 70))%N then Some (c - 55)%N
  else None.

Inductive frame : Type :=
| InArray (elems_rev : list value)
| InObject (props : list (jsstring * value)) (key : option jsstring).

(** Where the automaton is inside a numeric literal. *)
Inductive numstate : Type :=
| NMinus | NZero | NInt | NDot | NFrac | NExp | NExpSign | NExpDigits.

Definition accepting (st : numstate) : bool :=
  match st with
  | NZero | NInt | NFrac | NExpDigits => true
  | NMinus | NDot | NExp | NExpSign => false
  end.

Inductive mode : Type :=
| Value
| ArrayStart
| ObjectStart
| Key
| Colon
| Str (is_key : bool) (acc_rev : jsstring)
| Esc (is_key : bool) (acc_rev : jsstring)
| Hex (is_key : bool) (acc_rev : jsstring) (remaining : nat) (code : N)
| Num (st : numstate) (n : number)
| Word (rest : jsstring) (v : value)
| After
| Done (v : value).

Definition state : Type := list frame * mode.

Definition zero_literal (neg : bool) : number :=
  {| num_neg := neg; num_mantissa := 0; num_scale := 0;
     num_exp_neg := false; num_exp := 0 |}.

Definition push_int (n : number) (c : code_unit) : number :=
  {| num_neg := num_neg n; num_mantissa := num_mantissa n * 10 + (c - 48);
     num_scale := num_scale n;
     num_exp_neg := num_exp_neg n; num_exp := num_exp n |}.

Definition push_frac (n : number) (c : code_unit) : number :=
  {| num_neg := num_neg n; num_mantissa := num_mantissa n * 10 + (c - 48);
     num_scale := num_scale n + 1;
     num_exp_neg := num_exp_neg n; num_exp := num_exp n |}.

Definition push_exp (n : number) (c : code_unit) : number :=
  {| num_neg := num_neg n; num_mantissa := num_mantissa n;
     num_scale := num_scale n;
     num_exp_neg := num_exp_neg n; num_exp := num_exp n * 10 + (c - 48) |}.

Definition neg_exp (n : number) : number :=
  {| num_neg := num_neg n; num_mantissa := num_mantissa n;
     num_scale := num_scale n;
     num_exp_neg := true; num_exp := num_exp n |}.

Definition is_e (c : code_unit) : bool := chr "e" c || chr "E" c.

(** One more code unit of a numeric literal; [None] when [c] does not
    continue it. *)
Definition num_step (st : numstate) (n : number) (c : code_unit) :
  option (numstate * number) :=
  match st with
  | NMinus =>
      if chr "0" c then Some (NZero, n)
      else if is_digit c then Some (NInt, push_int n c)
      else None
  | NZero =>
      if chr "." c then Some (NDot, n)
      else if is_e c then Some (NExp, n)
      else None
  | NInt =>
      if is_digit c then Some (NInt, push_int n c)
      else if chr "." c then Some (NDot, n)
      else if is_e c then Some (NExp, n)
      else None
  | NDot => if is_digit c then Some (NFrac, push_frac n c) else None
  | NFrac =>
      if is_digit c then Some (NFrac, push_frac n c)
      else if is_e c then Some (NExp, n)
      else None
  | NExp =>
      if chr "+" c then Some (NExpSign, n)
      else if chr "-" c then Some (NExpSign, neg_exp n)
      else if is_digit c then Some (NExpDigits, push_exp n c)
      else None
  | NExpSign => if is_digit c then Some (NExpDigits, push_exp n c) else None
  | NExpDigits => if is_digit c then Some (NExpDigits, push_exp n c) else None
  end.

(** A value is complete: it is the result, the next element of the
    array being read, or the value of the pending key. *)
Definition complete (stack : list frame) (v : value) : option state :=
  match stack with
  | [] => Some ([], Done v)
  | InArray elems :: below => Some (InArray (v :: elems) :: below, After)
  | InObject props (Some k) :: below =>
      Some (InObject (define_prop k v props) None :: below, After)
  | InObject _ None :: _ => None
  end.

(** The first code unit of a value. *)
Definition start_value (stack : list frame) (c : code_unit) : option state :=
  if chr "{" c then Some (InObject [] None :: stack, ObjectStart)
  else if chr "[" c then Some (InArray [] :: stack, ArrayStart)
  else if is_dquote c then Some (stack, Str false [])
  else if chr "-" c then Some (stack, Num NMinus (zero_literal true))
  else if chr "0" c then Some (stack, Num NZero (zero_literal false))
  else if is_digit c then Some (stack, Num NInt (push_int (zero_literal false) c))
  else if chr "t" c then Some (stack, Word (lit "rue") (VBool true))
  else if chr "f" c then Some (stack, Word (lit "alse") (VBool false))
  else if chr "n" c then Some (stack, Word (lit "ull") VNull)
  else None.

(** A code unit after a complete value. *)
Definition step_after (stack : list frame) (m : mode) (c : code_unit) :
  option state :=
  match m with
  | Done v => if is_ws c then Some (stack, Done v) else None
  | After =>
      if is_ws c then Some (stack, After)
      else if chr "," c then
        match stack with
        | InArray _ :: _ => Some (stack, Value)
        | InObject _ None :: _ => Some (stack, Key)
        | _ => None
        end
      else if chr "]" c then
        match stack with
        | InArray elems :: below => complete below (VArray (rev elems))
        | _ => None
        end
      else if chr "}" c then
        match stack with
        | InObject props None :: below => complete below (VObject props)
        | _ => None
        end
      else None
  | _ => None
  end.

(** The closing quote of a string: a key waits for its colon, a string
    value is complete. *)
Definition end_string (stack : list frame) (is_key : bool) (s : jsstring) :
  option state :=
  if is_key then
    match stack with
    | InObject props None :: below => Some (InObject props (Some s) :: below, Colon)
    | _ => None
    end
  else complete stack (VString s).

Definition escape (c : code_unit) : option code_unit :=
  if is_dquote c then Some dquote
  else if chr "\" c then Some (ch "\")
  else if chr "/" c then Some (ch "/")
  else if chr "b" c then Some 8%N
  else if chr "f" c then Some 12%N
  else if chr "n" c then Some 10%N
  else if chr "r" c then Some 13%N
  else if chr "t" c then Some 9%N
  else None.

(** One code unit; [None] is a syntax error. *)
Definition step (st : state) (c : code_unit) : option state :=
  let (stack, m) := st in
  match m with
  | Value => if is_ws c then Some st else start_value stack c
  | ArrayStart =>
      if is_ws c then Some st
      else if chr "]" c then
        match stack with
        | InArray _ :: below => complete below (VArray [])
        | _ => None
        end
      else start_value stack c
  | ObjectStart =>
      if is_ws c then Some st
      else if chr "}" c then
        match stack with
        | InObject _ None :: below => complete below (VObject [])
        | _ => None
        end
      else if is_dquote c then Some (stack, Str true [])
      else None
  | Key =>
      if is_ws c then Some st
      else if is_dquote c then Some (stack, Str true [])
      else None
  | Colon =>
      if is_ws c then Some st
      else if chr ":" c then Some (stack, Value)
      else None
  | Str k acc =>
      if is_dquote c then end_string stack k (rev acc)
      else if chr "\" c then Some (stack, Esc k acc)
      else if (c <? 32)%N then None
      else Some (stack, Str k (c :: acc))
  | Esc k acc =>
      if chr "u" c then Some (stack, Hex k acc 4 0%N)
      else
        match escape c with
        | Some x => Some (stack, Str k (x :: acc))
        | None => None
        end
  | Hex k acc remaining code =>
      match hex_val c, remaining with
      | Some h, S O => Some (stack, Str k ((code * 16 + h)%N :: acc))
      | Some h, S r => Some (stack, Hex k acc r (code * 16 + h)%N)
      | _, _ => None
      end
  | Num ns n =>
      match num_step ns n c with
      | Some (ns', n') => Some (stack, Num ns' n')
      | None =>
          if accepting ns then
            match complete stack (VNumber n) with
            | Some (stack', m') => step_after stack' m' c
            | None => None
            end
          else None
      end
  | Word rest v =>
      match rest with
      | x :: rest' =>
          if (c =? x)%N then
            match rest' with
            | [] => complete stack v
            | _ :: _ => Some (stack, Word rest' v)
            end
          else None
      | [] => None
      end
  | After | Done _ => step_after stack m c
  end.

Fixpoint run (st : state) (s : jsstring) : option state :=
  match s with
  | [] => Some st
  | c :: s' =>
      match step st c with
      | Some st' => run st' s'
      | None => None
      end
  end.

(** The end of the text: a value must be complete, a number at top level
    ends here. *)
Definition finish (st : state) : option value :=
  match st with
  | ([], Done v) => Some v
  | ([], Num ns n) => if accepting ns then Some (VNumber n) else None
  | _ => None
  end.

Definition initial : state := ([], Value).

(** [JSON.parse(text)] without a reviver. *)
Definition parse (text : jsstring) : completion value :=
  match run initial text with
  | Some st =>
      match finish st with
      | Some v => Normal v
      | None => Throw SyntaxError
      end
  | None => Throw SyntaxError
  end.

End JSON.

(** ** Buffers and base64 *)

Module Buffer.

(** A byte; every number below 256 is one. *)
Definition byte := N.

Definition is_high_surrogate (c : code_unit) : bool :=
  ((55296 <=? c) && (c <=? 56319))%N.

Definition is_low_surrogate (c : code_unit) : bool :=
  ((56320 <=? c) && (c <=? 57343))%N.

Definition continuation (x : N) : byte := (128 + x mod 64)%N.

(** UTF-8 of one code point. *)
Definition utf8 (cp : N) : list byte :=
  if (cp <? 128)%N then [cp]
  else if (cp <? 2048)%N then [(192 + cp / 64)%N; continuation cp]
  else if (cp <? 65536)%N then
    [(224 + cp / 4096)%N; continuation (cp / 64); continuation cp]
  else
    [(240 + (cp / 262144) mod 8)%N; continuation (cp / 4096);
     continuation (cp / 64); continuation cp].

(** U+FFFD, which stands for a surrogate without its partner. *)
Definition replacement : list byte := [239; 191; 189]%N.

(** [Buffer.from(s)]: the UTF-8 encoding of a string. *)
Fixpoint from (s : jsstring) : list byte :=
  match s with
  | [] => []
  | c :: s' =>
      if is_high_surrogate c then
        match s' with
        | d :: s'' =>
            if is_low_surrogate d then
              utf8 (65536 + (c - 55296) * 1024 + (d - 56320))%N ++ from s''
            else replacement ++ from s'
        | [] => replacement
        end
      else if is_low_surrogate c then replacement ++ from s'
      else utf8 c ++ from s'
  end.

(** The base64 alphabet of RFC 4648, section 4. *)
Definition alphabet (i : N) : code_unit :=
  if (i <? 26)%N then (65 + i)%N
  else if (i <? 52)%N then (97 + (i - 26))%N
  else if (i <? 62)%N then (48 + (i - 52))%N
  else if (i =? 62)%N then ch "+"
  else ch "/".

(** [buf.toString('base64')]: three bytes give four characters, the last
    group is padded with [=]. *)
Fixpoint toString_base64 (bs : list byte) : jsstring :=
  match bs with
  | [] => []
  | [a] => [alphabet (a / 4); alphabet (a mod 4 * 16); ch "="; ch "="]%N
  | [a; b] =>
      [alphabet (a / 4); alphabet (a mod 4 * 16 + b / 16);
       alphabet (b mod 16 * 4); ch "="]%N
  | a :: b :: c :: rest =>
      [alphabet (a / 4); alphabet (a mod 4 * 16 + b / 16);
       alphabet (b mod 16 * 4 + c / 64); alphabet (c mod 64)]%N
      ++ toString_base64 rest
  end.

(** The value of a character of the URL-safe alphabet of RFC 4648,
    section 5. *)
Definition url_index (c : code_unit) : option N :=
  if ((65 <=? c) && (c <=? 90))%N then Some (c - 65)%N
  else if ((97 <=? c) && (c <=? 122))%N then Some (c - 97 + 26)%N
  else if ((48 <=? c) && (c <=? 57))%N then Some (c - 48 + 52)%N
  else if chr "-" c then Some 62%N
  else if chr "_" c then Some 63%N
  else None.

(** Decoding of unpadded base64url (RFC 4648, sections 3.2 and 5), as
    the receiver of a raw message does it: four characters give three
    bytes; a last group of two or three characters gives one or two
    bytes and its unused bits must be zero; [None] for any other text. *)
Fixpoint base64url_decode (s : jsstring) : option (list byte) :=
  match s with
  | [] => Some []
  | [_] => None
  | [c1; c2] =>
      match url_index c1, url_index c2 with
      | Some a, Some b =>
          if (b mod 16 =? 0)%N then Some [(a * 4 + b / 16)%N] else None
      | _, _ => None
      end
  | [c1; c2; c3] =>
      match url_index c1, url_index c2, url_index c3 with
      | Some a, Some b, Some c =>
          if (c mod 4 =? 0)%N
          then Some [(a * 4 + b / 16)%N; (b mod 16 * 16 + c / 4)%N]
          else None
      | _, _, _ => None
      end
  | c1 :: c2 :: c3 :: c4 :: rest =>
      match url_index c1, url_index c2, url_index c3, url_index c4,
            base64url_decode rest with
      | Some a, Some b, Some c, Some d, Some bytes =>
          Some ((a * 4 + b / 16)%N :: (b mod 16 * 16 + c / 4)%N
                :: (c mod 4 * 64 + d)%N :: bytes)
      | _, _, _, _, _ => None
      end
  end.

End Buffer.

Import Buffer.

(** ** The program *)

Module App.

(** What the outside world answers: the platform's rendering of
    Numbers, the completion endpoint ([await fetch(...)] followed by
    [await response.json()], as a function of the prompt), the OAuth
    client (the access token, the exchange of a code, the
    authorization URL it makes) and the Gmail client. *)
Record Host : Type := {
  Number_toString : number -> jsstring;
  chat_completion : jsstring -> completion value;
  getAccessToken : completion value;
  messages_send : jsstring -> completion value;
  getToken : value -> completion value;
  generateAuthUrl : jsstring
}.

(** The effects the program performs, in order. *)
Inductive event : Type :=
| ConsoleLog (label : jsstring) (arg : option value)
| ConsoleError (label : jsstring) (e : option error)
| Fetch (prompt : jsstring)
| GetAccessToken
| GmailSend (raw : jsstring)
| SendMessage (chatId : Z) (text : jsstring)
| StartPolling
| GenerateAuthUrl
| Listen (port : N)
| GetToken (code : value)
| HttpSend (text : jsstring)
| ExitScheduled
| ProcessExit (code : Z).

(** A computation: the effects performed and how the computation
    completed. *)
Definition M (A : Type) : Type := (list event * completion A)%type.

Definition ret {A} (a : A) : M A := ([], Normal a).
Definition throw {A} (e : error) : M A := ([], Throw e).
Definition lift {A} (c : completion A) : M A := ([], c).
Definition emit (e : event) : M unit := ([e], Normal tt).

Definition bind {A B} (m : M A) (f : A -> M B) : M B :=
  match m with
  | (t, Normal a) => let (t', r) := f a in (t ++ t', r)
  | (t, Throw e) => (t, Throw e)
  end.

(** [try { m } catch (error) { handler error }] *)
Definition try_catch {A} (m : M A) (handler : error -> M A) : M A :=
  match m with
  | (t, Throw e) => let (t', r) := handler e in (t ++ t', r)
  | (t, Normal a) => (t, Normal a)
  end.

Definition cbind {A B} (c : completion A) (f : A -> completion B) :
  completion B :=
  match c with
  | Normal a => f a
  | Throw e => Throw e
  end.

Declare Scope js_scope.
Delimit Scope js_scope with js.
Notation "x <- m ;; k" := (bind m (fun x => k))
  (at level 61, m at next level, right associativity) : js_scope.
Notation "m ;; k" := (bind m (fun _ => k))
  (at level 61, right associativity) : js_scope.
Notation "x <~ c ;; k" := (cbind c (fun x => k))
  (at level 61, c at next level, right associativity) : js_scope.
Local Open Scope js_scope.

Definition newline : jsstring := [10%N].
Definition CRLF : jsstring := [13%N; 10%N].
Definition cross_mark : jsstring := [10060%N].
Definition check_mark : jsstring := [9989%N].
Definition robot_face : jsstring := [55358%N; 56598%N].
Definition quoted (s : jsstring) : jsstring := dquote :: s ++ [dquote].

(** *** AI email extraction *)

Record EmailData : Type := { to : value; subject : value; body : value }.

Definition prompt_for (message : jsstring) : jsstring :=
  newline
  ++ lit "You are an email assistant. Analyze the following message and respond with a JSON object in this exact format:"
  ++ newline
  ++ lit "{" ++ quoted (lit "email") ++ lit ": " ++ quoted (lit "recipient@example.com")
  ++ lit ", " ++ quoted (lit "subject") ++ lit ": " ++ quoted (lit "email subject")
  ++ lit ", " ++ quoted (lit "body") ++ lit ": " ++ quoted (lit "email content") ++ lit "}"
  ++ newline ++ newline
  ++ lit "Message to analyze: " ++ message ++ newline.

(** [data.choices?.[0]?.message?.content?.trim()] *)
Definition message_text (data : value) : completion value :=
  choices <~ Get data (lit "choices") ;;
  optional choices (fun choices =>
    first <~ Get0 choices ;;
    optional first (fun first =>
      message <~ Get first (lit "message") ;;
      optional message (fun message =>
        content <~ Get message (lit "content") ;;
        optional content call_trim))).

Definition getEmailDataFromAI (h : Host) (message : value) :
  M (option EmailData) :=
  shown <- lift (ToString (Number_toString h) message) ;;
  let prompt := prompt_for shown in
  try_catch
    (emit (Fetch prompt) ;;
     data <- lift (chat_completion h prompt) ;;
     text <- lift (message_text data) ;;
     if negb (ToBoolean text) then throw (Error "No response from model")
     else
       jsonMatch <- lift (call_match text re_braces) ;;
       match jsonMatch with
       | None => throw (Error "No JSON found in output")
       | Some matched =>
           parsed <- lift (JSON.parse matched) ;;
           email <- lift (Get parsed (lit "email")) ;;
           if negb (ToBoolean email)
           then throw (Error "Missing required fields in AI output")
           else
             subject <- lift (Get parsed (lit "subject")) ;;
             if negb (ToBoolean subject)
             then throw (Error "Missing required fields in AI output")
             else
               body <- lift (Get parsed (lit "body")) ;;
               if negb (ToBoolean body)
               then throw (Error "Missing required fields in AI output")
               else ret (Some {| to := email; subject := subject; body := body |})
       end)
    (fun error =>
       emit (ConsoleError (lit "AI parse error:") (Some error)) ;;
       ret None).

(** *** Send email *)

(** An element of an array under [join]. *)
Definition join_element (h : Host) (v : value) : completion jsstring :=
  match v with
  | VUndefined | VNull => Normal []
  | _ => ToString (Number_toString h) v
  end.

(** [emailLines.join('\r\n')] *)
Definition email_message (h : Host) (userEmail : jsstring) (d : EmailData) :
  completion jsstring :=
  to_line <~ ToString (Number_toString h) (to d) ;;
  subject_line <~ ToString (Number_toString h) (subject d) ;;
  body_line <~ join_element h (body d) ;;
  Normal
    (join CRLF
       [lit "From: " ++ quoted (lit "Email Bot") ++ lit " <" ++ userEmail ++ lit ">";
        lit "To: " ++ to_line;
        lit "Subject: " ++ subject_line;
        lit "Content-Type: text/plain; charset=" ++ quoted (lit "UTF-8");
        [];
        body_line]).

(** [Buffer.from(email).toString('base64').replace(/\+/g, '-')
    .replace(/\//g, '_').replace(/=+$/, '')] *)
Definition encodedMessage (email : jsstring) : jsstring :=
  replace_first re_padding []
    (replace_all re_slash (lit "_") 0
       (replace_all re_plus (lit "-") 0
          (toString_base64 (from email)))).

Definition sendMail (h : Host) (userEmail : jsstring) (d : EmailData) :
  M value :=
  try_catch
    (emit GetAccessToken ;;
     accessTokenResponse <- lift (getAccessToken h) ;;
     accessToken <- lift (Get accessTokenResponse (lit "token")) ;;
     if negb (ToBoolean accessToken)
     then throw (Error "Failed to get access token")
     else
       email <- lift (email_message h userEmail d) ;;
       let raw := encodedMessage email in
       emit (GmailSend raw) ;;
       res <- lift (messages_send h raw) ;;
       data <- lift (Get res (lit "data")) ;;
       id <- lift (Get data (lit "id")) ;;
       shown <- lift (ToString (Number_toString h) id) ;;
       emit (ConsoleLog (lit "Email sent! Message ID: " ++ shown) None) ;;
       ret data)
    (fun error =>
       emit (ConsoleError (lit "Error sending email:") (Some error)) ;;
       throw error).

(** *** The message handler of [startTelegramBot] *)

(** An update of the chat: [msg.text] is a string, or [undefined] for a
    message without text. *)
Record Message : Type := { chat_id : Z; text : option jsstring }.

Definition text_value (t : option jsstring) : value :=
  match t with
  | Some s => VString s
  | None => VUndefined
  end.

Definition extraction_failed : jsstring :=
  cross_mark ++ lit " Could not extract email details. Try rephrasing.".

Definition send_failed : jsstring :=
  cross_mark ++ lit " Failed to send email. Try again later.".

Definition sent_to (recipient : jsstring) : jsstring :=
  check_mark ++ lit " Email sent to " ++ recipient ++ lit " successfully!".

Definition on_message (h : Host) (userEmail : jsstring) (msg : Message) :
  M unit :=
  let chatId := chat_id msg in
  let text := text_value (text msg) in
  emit (ConsoleLog (lit "Received message:") (Some text)) ;;
  emailData <- getEmailDataFromAI h text ;;
  match emailData with
  | None => emit (SendMessage chatId extraction_failed)
  | Some d =>
      try_catch
        (sendMail h userEmail d ;;
         recipient <- lift (ToString (Number_toString h) (to d)) ;;
         emit (SendMessage chatId (sent_to recipient)))
        (fun err => emit (SendMessage chatId send_failed))
  end.

(** *** Configuration and [main] *)

Record Env : Type := {
  TELEGRAM_BOT_TOKEN : option jsstring;
  OPENAI_API_KEY : option jsstring;
  GOOGLE_CLIENT_ID : option jsstring;
  GOOGLE_CLIENT_SECRET : option jsstring;
  GOOGLE_REDIRECT_URI : option jsstring;
  GMAIL_USER_EMAIL : option jsstring;
  GMAIL_REFRESH_TOKEN : option jsstring
}.

(** An environment variable read as a value. *)
Definition env_value (v : option jsstring) : value := text_value v.

Definition userEmail (env : Env) : jsstring :=
  match GMAIL_USER_EMAIL env with
  | Some s => s
  | None => lit "undefined"
  end.

(** The condition of the first [if] of the script, negated: every
    required variable is set and not empty. *)
Definition configured (env : Env) : bool :=
  ToBoolean (env_value (TELEGRAM_BOT_TOKEN env))
  && ToBoolean (env_value (OPENAI_API_KEY env))
  && ToBoolean (env_value (GOOGLE_CLIENT_ID env))
  && ToBoolean (env_value (GOOGLE_CLIENT_SECRET env))
  && ToBoolean (env_value (GMAIL_USER_EMAIL env)).

(** The state of the process that the claims observe. *)
Record Process : Type := {
  credentials : value;
  polling : bool;
  serving : bool;
  exit_timers : nat;
  exited : bool
}.

Definition set_credentials (p : Process) (c : value) : Process :=
  {| credentials := c; polling := polling p; serving := serving p;
     exit_timers := exit_timers p; exited := exited p |}.

Definition schedule_exit (p : Process) : Process :=
  {| credentials := credentials p; polling := polling p; serving := serving p;
     exit_timers := S (exit_timers p); exited := exited p |}.

Definition exit_process (p : Process) : Process :=
  {| credentials := credentials p; polling := polling p; serving := serving p;
     exit_timers := exit_timers p; exited := true |}.

(** The script up to the call of [main]: the OAuth client gets the
    refresh token of the environment when there is one. *)
Definition loaded (env : Env) : Process :=
  {| credentials :=
       if ToBoolean (env_value (GMAIL_REFRESH_TOKEN env))
       then VObject [(lit "refresh_token", env_value (GMAIL_REFRESH_TOKEN env))]
       else VObject [];
     polling := false; serving := false; exit_timers := 0; exited := false |}.

Definition startTelegramBot (p : Process) : Process * list event :=
  ({| credentials := credentials p; polling := true; serving := serving p;
      exit_timers := exit_timers p; exited := exited p |},
   [StartPolling;
    ConsoleLog (robot_face ++ lit " Telegram bot started and listening for messages.") None]).

Definition PORT : N := 3000.

(** [main]; its first line reads a property of the credentials, which
    throws before anything is done if they are not an object.  The
    authorization URL is the one the OAuth client makes. *)
Definition main (h : Host) (p : Process) : Process * list event :=
  match Get (credentials p) (lit "refresh_token") with
  | Throw _ => (p, [])
  | Normal token =>
      if ToBoolean token then
        let (p', t) := startTelegramBot p in
        (p', ConsoleLog (check_mark ++ lit " Refresh token available, starting Telegram bot...") None :: t)
      else
        ({| credentials := credentials p; polling := polling p; serving := true;
            exit_timers := exit_timers p; exited := exited p |},
         [GenerateAuthUrl;
          ConsoleLog (lit "Visit this URL to authorize the app:" ++ newline)
            (Some (VString (generateAuthUrl h)));
          Listen PORT;
          ConsoleLog (lit "OAuth server listening on http://localhost:3000") None])
  end.

(** The whole script, from the start of the process to the return of
    [main]. *)
Definition boot (h : Host) (env : Env) : Process * list event :=
  if configured env then main h (loaded env)
  else
    (exit_process (loaded env),
     [ConsoleError (cross_mark ++ lit " Please set all required environment variables!") None;
      ProcessExit 1]).

(** The handler of [GET /oauth2callback]. *)
Definition oauth2callback (h : Host) (p : Process) (code : value) :
  Process * list event :=
  if negb (ToBoolean code) then (p, [HttpSend (lit "No code received.")])
  else
    let failed (p' : Process) (before : list event) (e : error) :=
      (p', before
           ++ [ConsoleError (lit "Error retrieving access token:") (Some e);
               HttpSend (lit "Error retrieving access token.")]) in
    match (r <~ getToken h code ;; Get r (lit "tokens")) with
    | Throw e => failed p [GetToken code] e
    | Normal tokens =>
        let p1 := set_credentials p tokens in
        let before :=
          [GetToken code;
           ConsoleLog (check_mark ++ lit " Tokens acquired:") (Some tokens)] in
        match Get tokens (lit "refresh_token") with
        | Throw e => failed p1 before e
        | Normal token =>
            (schedule_exit p1,
             before
             ++ (if ToBoolean token
                 then [ConsoleLog (lit "Save this refresh token to your environment variables:") (Some token)]
                 else [])
             ++ [HttpSend (lit "Authorization successful! You can now return to the terminal and restart the bot.");
                 ExitScheduled])
        end
    end.

(** The handlers are [async] functions: one runs until it awaits, and
    goes on when what it awaits is settled, while other handlers may
    have started or gone on in between.  A segment is what a handler
    does between two awaits, its effects and what it does to the state
    of the process; a task is what is left of a handler in flight. *)
Definition segment : Type := (list event * (Process -> Process))%type.

Definition task : Type := list segment.

Definition unchanged : Process -> Process := fun p => p.

(** The handler of a chat message.  It logs the message at once; the
    request to the model comes later, behind the dynamic import of
    [fetch], and the token, the request to the provider and the answer
    in the chat are awaited in turn.  The handler is cut before each of
    its later effects, which is at every await and in some places more
    often: every interleaving of the handlers of the program is then
    one of the runs below.  The handler does not touch the state of the
    process. *)
Definition message_task (w : Host) (env : Env) (msg : Message) : task :=
  map (fun e => ([e], unchanged)) (fst (on_message w (userEmail env) msg)).

(** The handler of the callback, cut at its one await, that of
    [getToken]: the request without code is answered at once; otherwise
    the tokens are asked for at once and all the rest, with the new
    credentials and the timer, follows when the answer is there. *)
Definition callback_task (w : Host) (p : Process) (code : value) : task :=
  match snd (oauth2callback w p code) with
  | GetToken c :: rest =>
      [([GetToken c], unchanged); (rest, fun q => fst (oauth2callback w q code))]
  | all => [(all, fun q => fst (oauth2callback w q code))]
  end.

(** The state of the process with the handlers in flight. *)
Definition Running : Type := (Process * list task)%type.

(** What can happen to the running process: an update of the chat or a
    request to the callback arrives, each with what the outside world
    will answer to the handler it starts; a timer fires; the handler in
    flight number [k] goes on. *)
Inductive input : Type :=
| TelegramUpdate (w : Host) (msg : Message)
| HttpGetCallback (w : Host) (code : value)
| TimerFired
| Resume (k : nat).

(** A handler starts: its first segment runs at once. *)
Definition start (r : Running) (t : task) : Running * list event :=
  match t with
  | (events, effect) :: rest => ((effect (fst r), snd r ++ [rest]), events)
  | [] => (r, [])
  end.

(** The next segment of the handler in flight number [k], if it has
    one, and the handlers in flight without it. *)
Fixpoint resume (tasks : list task) (k : nat) : option (segment * list task) :=
  match tasks, k with
  | [], _ => None
  | [] :: _, O => None
  | (seg :: rest) :: others, O => Some (seg, rest :: others)
  | t :: others, S k' =>
      match resume others k' with
      | Some (seg, others') => Some (seg, t :: others')
      | None => None
      end
  end.

(** The reaction of the process to one input: an update reaches the
    handler only while the bot polls, a request reaches the route only
    while the server listens, a timer fires only when one was set and
    ends the process with all that is in flight. *)
Definition react (env : Env) (r : Running) (i : input) : Running * list event :=
  if exited (fst r) then (r, [])
  else
    match i with
    | TelegramUpdate w msg =>
        if polling (fst r) then start r (message_task w env msg) else (r, [])
    | HttpGetCallback w code =>
        if serving (fst r) then start r (callback_task w (fst r) code) else (r, [])
    | TimerFired =>
        match exit_timers (fst r) with
        | S _ => ((exit_process (fst r), snd r), [ProcessExit 0])
        | O => (r, [])
        end
    | Resume k =>
        match resume (snd r) k with
        | Some ((events, effect), tasks) => ((effect (fst r), tasks), events)
        | None => (r, [])
        end
    end.

Fixpoint run (env : Env) (r : Running) (ins : list input) : Running * list event :=
  match ins with
  | [] => (r, [])
  | i :: rest =>
      let (r1, t1) := react env r i in
      let (r2, t2) := run env r1 rest in
      (r2, t1 ++ t2)
  end.

(** Everything the process does, given the world [h] at its start and
    what happens to it afterwards, in any order. *)
Definition process_trace (h : Host) (env : Env) (ins : list input) : list event :=
  let (p, t) := boot h env in
  t ++ snd (run env (p, []) ins).

(** Events of the one-time consent flow and of the message pipeline. *)
Definition is_consent_event (e : event) : bool :=
  match e with
  | GenerateAuthUrl | Listen _ | GetToken _ | HttpSend _ | ExitScheduled => true
  | _ => false
  end.

Definition is_pipeline_event (e : event) : bool :=
  match e with
  | StartPolling | Fetch _ | GetAccessToken | GmailSend _ | SendMessage _ _ => true
  | _ => false
  end.

(** Events of the dispatcher. *)
Definition is_dispatch_event (e : event) : bool :=
  match e with
  | GetAccessToken | GmailSend _ => true
  | _ => false
  end.

End App.

(** * Properties *)

(** ** The patterns *)

Module RegExpFacts.

Definition lbrace : code_unit := ch "{".
Definition rbrace : code_unit := ch "}".

(** The continuation of [.*] in [re_braces]: the closing brace. *)
Definition closing : jsstring -> option jsstring := matchp [One (chr "}")].

Lemma chr_true (a : ascii) (c : code_unit) : chr a c = true <-> c = ch a.
Proof.
  unfold chr. rewrite N.eqb_eq. split; congruence.
Qed.

Lemma chr_false (a : ascii) (c : code_unit) : chr a c = false <-> c <> ch a.
Proof.
  unfold chr. rewrite N.eqb_neq. split; congruence.
Qed.

Lemma closing_cons (x : code_unit) (s : jsstring) :
  closing (x :: s) = if chr "}" x then Some [x] else None.
Proof.
  unfold closing. simpl. destruct (chr "}" x); reflexivity.
Qed.

Lemma star_any_cons (k : jsstring -> option jsstring) (x : code_unit) (s : jsstring) :
  star any k (x :: s)
  = match star any k s with Some m => Some (x :: m) | None => k (x :: s) end.
Proof. reflexivity. Qed.

(** Without a closing brace the greedy star has nothing to give back
    to, and conversely. *)
Lemma star_no_rbrace (s : jsstring) :
  ~ In rbrace s -> star any closing s = None.
Proof.
  induction s as [|x s IH]; intros Hn.
  - reflexivity.
  - rewrite star_any_cons, IH by (intros H; apply Hn; now right).
    rewrite closing_cons.
    destruct (chr "}" x) eqn:E; [|reflexivity].
    apply chr_true in E. exfalso. apply Hn. left. now rewrite E.
Qed.

Lemma star_none_inv (s : jsstring) :
  star any closing s = None -> ~ In rbrace s.
Proof.
  induction s as [|x s IH]; intros H.
  - intros [].
  - rewrite star_any_cons in H.
    destruct (star any closing s); [discriminate|].
    rewrite closing_cons in H.
    destruct (chr "}" x) eqn:E; [discriminate|].
    apply chr_false in E. intros [Hx|Hs]; [now apply E|now apply IH].
Qed.

(** The star runs to the last closing brace. *)
Lemma star_to_last_rbrace (mid post : jsstring) :
  ~ In rbrace post ->
  star any closing (mid ++ rbrace :: post) = Some (mid ++ [rbrace]).
Proof.
  intros Hn. induction mid as [|y mid IH].
  - simpl app. rewrite star_any_cons, (star_no_rbrace _ Hn), closing_cons.
    reflexivity.
  - simpl app. rewrite star_any_cons, IH. reflexivity.
Qed.

Lemma star_some_inv (s m : jsstring) :
  star any closing s = Some m ->
  exists mid post, s = mid ++ rbrace :: post /\ m = mid ++ [rbrace]
                   /\ ~ In rbrace post.
Proof.
  revert m. induction s as [|x s IH]; intros m H.
  - discriminate H.
  - rewrite star_any_cons in H.
    destruct (star any closing s) as [m'|] eqn:E.
    + injection H as <-. destruct (IH _ eq_refl) as (mid & post & -> & -> & Hn).
      exists (x :: mid), post. repeat split; auto.
    + rewrite closing_cons in H. destruct (chr "}" x) eqn:Ex; [|discriminate].
      injection H as <-. apply chr_true in Ex. subst x.
      exists [], s. repeat split; auto. now apply star_none_inv.
Qed.

Lemma matchp_braces_cons (x : code_unit) (s : jsstring) :
  matchp re_braces (x :: s)
  = if chr "{" x then option_map (cons x) (star any closing s) else None.
Proof. reflexivity. Qed.

Lemma exec_eq (p : pattern) (s : jsstring) :
  exec p s
  = match matchp p s with
    | Some m => Some m
    | None => match s with [] => None | _ :: s' => exec p s' end
    end.
Proof. destruct s; reflexivity. Qed.

(** [/\{.*\}/s] finds the text from the first opening brace to the last
    closing brace, when the one comes before the other. *)
Lemma exec_braces_intro (pre mid post : jsstring) :
  ~ In lbrace pre -> ~ In rbrace post ->
  exec re_braces (pre ++ lbrace :: mid ++ rbrace :: post)
  = Some (lbrace :: mid ++ [rbrace]).
Proof.
  intros Hpre Hpost. induction pre as [|x pre IH].
  - simpl app.
    assert (Hm : matchp re_braces (lbrace :: mid ++ rbrace :: post)
                 = Some (lbrace :: mid ++ [rbrace])).
    { rewrite matchp_braces_cons. change (chr "{" lbrace) with true.
      now rewrite (star_to_last_rbrace mid post Hpost). }
    now rewrite exec_eq, Hm.
  - simpl app. rewrite exec_eq, matchp_braces_cons.
    destruct (chr "{" x) eqn:E.
    + apply chr_true in E. exfalso. apply Hpre. left. now rewrite E.
    + apply IH. intros H. apply Hpre. now right.
Qed.

Lemma exec_braces_inv (s m : jsstring) :
  exec re_braces s = Some m ->
  exists pre mid post,
    s = pre ++ lbrace :: mid ++ rbrace :: post
    /\ m = lbrace :: mid ++ [rbrace]
    /\ ~ In lbrace pre /\ ~ In rbrace post.
Proof.
  induction s as [|x s IH]; intros H.
  - discriminate H.
  - rewrite exec_eq, matchp_braces_cons in H.
    destruct (chr "{" x) eqn:E.
    + apply chr_true in E. subst x.
      destruct (star any closing s) as [m'|] eqn:Es; simpl option_map in H.
      * injection H as <-.
        destruct (star_some_inv _ _ Es) as (mid & post & -> & -> & Hn).
        exists [], mid, post. repeat split; auto.
      * destruct (IH H) as (pre & mid & post & -> & _ & _ & _).
        exfalso. apply (star_none_inv _ Es).
        apply in_or_app. right. right. apply in_or_app. right. now left.
    + destruct (IH H) as (pre & mid & post & -> & -> & Hpre & Hpost).
      exists (x :: pre), mid, post. repeat split; auto.
      apply chr_false in E. intros [Hx|Hin]; [now apply E|now apply Hpre].
Qed.

(** A match exists as soon as some opening brace comes before some
    closing brace. *)
Lemma exec_braces_some (pre mid post : jsstring) :
  exists m, exec re_braces (pre ++ lbrace :: mid ++ rbrace :: post) = Some m.
Proof.
  induction pre as [|x pre [m IH]].
  - simpl app. rewrite exec_eq, matchp_braces_cons.
    change (chr "{" lbrace) with true.
    destruct (star any closing (mid ++ rbrace :: post)) as [m|] eqn:E.
    + exists (lbrace :: m). reflexivity.
    + exfalso. apply (star_none_inv _ E). apply in_or_app. right. now left.
  - simpl app. rewrite exec_eq.
    destruct (matchp re_braces (x :: pre ++ lbrace :: mid ++ rbrace :: post)) as [m'|].
    + now exists m'.
    + now exists m.
Qed.

End RegExpFacts.

(** ** trim *)

Module TrimFacts.

Lemma trimStart_In (c : code_unit) (s : jsstring) :
  In c (trimStart s) -> In c s.
Proof.
  induction s as [|x s IH]; simpl; [tauto|].
  destruct (is_trim_space x); [now right; apply IH|trivial].
Qed.

Lemma trimEnd_In (c : code_unit) (s : jsstring) :
  In c (trimEnd s) -> In c s.
Proof.
  unfold trimEnd. intros H. apply in_rev in H. apply trimStart_In in H.
  now apply in_rev.
Qed.

(** Leading white space ends at the first code unit that is none. *)
Lemma trimStart_app (pre rest : jsstring) (x : code_unit) :
  is_trim_space x = false ->
  trimStart (pre ++ x :: rest) = trimStart pre ++ x :: rest.
Proof.
  intros Hx. induction pre as [|y pre IH]; simpl.
  - now rewrite Hx.
  - destruct (is_trim_space y); [exact IH|reflexivity].
Qed.

Lemma trimEnd_app (front post : jsstring) (x : code_unit) :
  is_trim_space x = false ->
  trimEnd (front ++ x :: post) = front ++ x :: trimEnd post.
Proof.
  intros Hx. unfold trimEnd.
  rewrite rev_app_distr. simpl rev. rewrite <- app_assoc. simpl app.
  rewrite (trimStart_app _ _ _ Hx), rev_app_distr. simpl rev.
  rewrite rev_involutive, <- app_assoc. reflexivity.
Qed.

(** Trimming leaves a text between braces as it is. *)
Lemma trim_braces (pre mid post : jsstring) :
  trim (pre ++ RegExpFacts.lbrace :: mid ++ RegExpFacts.rbrace :: post)
  = trimStart pre ++ RegExpFacts.lbrace :: mid ++ RegExpFacts.rbrace :: trimEnd post.
Proof.
  unfold trim. rewrite trimStart_app by reflexivity.
  replace (trimStart pre ++ RegExpFacts.lbrace :: mid ++ RegExpFacts.rbrace :: post)
    with ((trimStart pre ++ RegExpFacts.lbrace :: mid) ++ RegExpFacts.rbrace :: post)
    by (rewrite <- app_assoc; reflexivity).
  rewrite trimEnd_app by reflexivity.
  rewrite <- app_assoc. reflexivity.
Qed.

End TrimFacts.

(** ** The extractor *)

Module ExtractorFacts.

Import App RegExpFacts TrimFacts.
Local Open Scope js_scope.

(** How the template literal of the prompt shows [msg.text]. *)
Definition shown_text (t : option jsstring) : jsstring :=
  match t with
  | Some s => s
  | None => lit "undefined"
  end.

Definition missing_fields : error := Error "Missing required fields in AI output".

(** The three stages of the [try] block of [getEmailDataFromAI] as
    completions, without the effects: the checks of the fields, the
    search for the braces with the parse, and the call of the model. *)
Definition checked_fields (parsed : value) : completion EmailData :=
  email <~ Get parsed (lit "email") ;;
  if negb (ToBoolean email) then Throw missing_fields
  else
    subject <~ Get parsed (lit "subject") ;;
    if negb (ToBoolean subject) then Throw missing_fields
    else
      body <~ Get parsed (lit "body") ;;
      if negb (ToBoolean body) then Throw missing_fields
      else Normal {| to := email; subject := subject; body := body |}.

Definition parsed_text (text : value) : completion EmailData :=
  if negb (ToBoolean text) then Throw (Error "No response from model")
  else
    jsonMatch <~ call_match text re_braces ;;
    match jsonMatch with
    | None => Throw (Error "No JSON found in output")
    | Some matched => parsed <~ JSON.parse matched ;; checked_fields parsed
    end.

Definition extraction (h : Host) (shown : jsstring) : completion EmailData :=
  data <~ chat_completion h (prompt_for shown) ;;
  text <~ message_text data ;;
  parsed_text text.

Lemma ToString_text (f : number -> jsstring) (t : option jsstring) :
  ToString f (text_value t) = Normal (shown_text t).
Proof. destruct t; reflexivity. Qed.

Ltac run_m := cbn [bind try_catch lift emit ret throw cbind fst snd app].

(** [getEmailDataFromAI] calls the model once, logs the error of a
    failed stage and turns it into [null]. *)
Lemma getEmailDataFromAI_eq (h : Host) (t : option jsstring) :
  getEmailDataFromAI h (text_value t)
  = (Fetch (prompt_for (shown_text t))
       :: match extraction h (shown_text t) with
          | Normal _ => []
          | Throw e => [ConsoleError (lit "AI parse error:") (Some e)]
          end,
     Normal match extraction h (shown_text t) with
            | Normal d => Some d
            | Throw _ => None
            end).
Proof.
  unfold getEmailDataFromAI, extraction. rewrite ToString_text. run_m.
  destruct (chat_completion h (prompt_for (shown_text t))) as [data|e]; run_m;
    [|reflexivity].
  destruct (message_text data) as [text|e]; run_m; [|reflexivity].
  unfold parsed_text.
  destruct (negb (ToBoolean text)); run_m; [reflexivity|].
  destruct (call_match text re_braces) as [[matched|]|e]; run_m;
    [|reflexivity|reflexivity].
  destruct (JSON.parse matched) as [parsed|e]; run_m; [|reflexivity].
  unfold checked_fields.
  destruct (Get parsed (lit "email")) as [email|e]; run_m; [|reflexivity].
  destruct (negb (ToBoolean email)); run_m; [reflexivity|].
  destruct (Get parsed (lit "subject")) as [subject|e]; run_m; [|reflexivity].
  destruct (negb (ToBoolean subject)); run_m; [reflexivity|].
  destruct (Get parsed (lit "body")) as [body|e]; run_m; [|reflexivity].
  destruct (negb (ToBoolean body)); run_m; reflexivity.
Qed.

End ExtractorFacts.

(** ** JSON.parse *)

Module JSONFacts.

Import JSON.

Lemma run_app (st : state) (a b : jsstring) :
  run st (a ++ b)
  = match run st a with
    | Some st' => run st' b
    | None => None
    end.
Proof.
  revert st. induction a as [|c a IH]; intros st; simpl.
  - reflexivity.
  - destruct (step st c); [apply IH|reflexivity].
Qed.

(** After the value of the text only white space may follow. *)
Lemma run_done (v : value) (s : jsstring) (st : state) :
  run ([], Done v) s = Some st -> Forall (fun c => is_ws c = true) s.
Proof.
  induction s as [|c s IH]; intros H.
  - constructor.
  - simpl in H. destruct (is_ws c) eqn:E; [|discriminate].
    constructor; auto.
Qed.

(** A text whose value is an object ends in the state that holds it. *)
Lemma parse_object_state (text : jsstring) (props : list (jsstring * value)) :
  parse text = Normal (VObject props) ->
  run initial text = Some ([], Done (VObject props)).
Proof.
  unfold parse. destruct (run initial text) as [[stack m]|]; [|discriminate].
  unfold finish. destruct stack; [|discriminate].
  destruct m; try discriminate.
  - destruct (accepting st); discriminate.
  - intros H. injection H as ->. reflexivity.
Qed.

(** Nothing but white space can follow a JSON object: with anything
    else after it the text is not JSON. *)
Lemma parse_object_then (obj tail : jsstring) (props : list (jsstring * value)) (c : code_unit) :
  parse obj = Normal (VObject props) ->
  In c tail -> is_ws c = false ->
  parse (obj ++ tail) = Throw SyntaxError.
Proof.
  intros Hobj Hin Hc. unfold parse.
  rewrite run_app, (parse_object_state _ _ Hobj).
  destruct (run ([], Done (VObject props)) tail) as [st|] eqn:E; [|reflexivity].
  apply run_done in E. rewrite Forall_forall in E.
  rewrite (E _ Hin) in Hc. discriminate.
Qed.

End JSONFacts.

(** ** Sample data *)

Module Samples.

Import App.

(** A response of the completion endpoint whose first choice holds the
    message content [content]. *)
Definition answer (content : jsstring) : value :=
  VObject
    [(lit "id", VString (lit "gen-1"));
     (lit "choices",
      VArray
        [VObject
           [(lit "message",
             VObject [(lit "role", VString (lit "assistant"));
                      (lit "content", VString content)])]])].

Definition token_response : value :=
  VObject [(lit "token", VString (lit "ya29.a0"))].

Definition sent_response : value :=
  VObject [(lit "data", VObject [(lit "id", VString (lit "18c2f0"))])].

(** A world in which the model answers [content], whatever it is asked;
    no sample shows a Number. *)
Definition host (content : jsstring) (token sent : completion value) : Host :=
  {| Number_toString := fun _ => lit "0";
     chat_completion := fun _ => Normal (answer content);
     getAccessToken := token;
     messages_send := fun _ => sent;
     getToken := fun _ => Throw (HostError 0);
     generateAuthUrl := lit "https://accounts.google.com/o/oauth2/v2/auth?access_type=offline" |}.

(** The text [{"email":e,"subject":s,"body":b}], the three values given
    as JSON texts. *)
Definition object_text (e s b : jsstring) : jsstring :=
  lit "{" ++ quoted (lit "email") ++ lit ":" ++ e
  ++ lit "," ++ quoted (lit "subject") ++ lit ":" ++ s
  ++ lit "," ++ quoted (lit "body") ++ lit ":" ++ b ++ lit "}".

Definition request : jsstring :=
  lit "send an email to bob@example.com saying the meeting moved to 3pm".

Definition bob_object : jsstring :=
  object_text (quoted (lit "bob@example.com")) (quoted (lit "Meeting update"))
    (quoted (lit "The meeting moved to 3pm.")).

Definition bob_props : list (jsstring * value) :=
  [(lit "email", VString (lit "bob@example.com"));
   (lit "subject", VString (lit "Meeting update"));
   (lit "body", VString (lit "The meeting moved to 3pm."))].

Definition bob_command : EmailData :=
  {| to := VString (lit "bob@example.com");
     subject := VString (lit "Meeting update");
     body := VString (lit "The meeting moved to 3pm.") |}.

(** The text between the braces of [s]. *)
Definition inside (s : jsstring) : jsstring := removelast (tl s).

End Samples.

(** ** What the extractor returns *)

Module Extractor.

Import App RegExpFacts TrimFacts ExtractorFacts JSONFacts Samples.
Local Open Scope js_scope.

(** The response holds the string [content] at
    [choices[0].message.content]. *)
Definition primary_content (data : value) : option jsstring :=
  match data with
  | VObject top =>
      match lookup (lit "choices") top with
      | Some (VArray (VObject choice :: _)) =>
          match lookup (lit "message") choice with
          | Some (VObject message) =>
              match lookup (lit "content") message with
              | Some (VString content) => Some content
              | _ => None
              end
          | _ => None
          end
      | _ => None
      end
  | _ => None
  end.

(** [obj] is the text of a JSON object, from its opening to its closing
    brace, and [props] are the properties it denotes. *)
Definition well_formed_object (obj : jsstring) (props : list (jsstring * value)) : Prop :=
  (exists mid, obj = lbrace :: mid ++ [rbrace])
  /\ JSON.parse obj = Normal (VObject props).

(** The value of key [k] is the string [s], which is not empty. *)
Definition string_field (props : list (jsstring * value)) (k s : jsstring) : Prop :=
  lookup k props = Some (VString s) /\ s <> [].

Lemma message_text_primary (data : value) (content : jsstring) :
  primary_content data = Some content ->
  message_text data = Normal (VString (trim content)).
Proof.
  unfold primary_content, message_text. destruct data; try discriminate.
  cbn [Get cbind].
  destruct (lookup (lit "choices") props) as [[| | | | |[|[] rest]|]|]; try discriminate.
  cbn [optional Get0 cbind Get].
  destruct (lookup (lit "message") props0) as [[]|]; try discriminate.
  cbn [optional Get0 cbind Get].
  destruct (lookup (lit "content") props1) as [[]|]; try discriminate.
  intros H. injection H as ->. reflexivity.
Qed.

Lemma Get_object (props : list (jsstring * value)) (k : jsstring) (v : value) :
  lookup k props = Some v -> Get (VObject props) k = Normal v.
Proof. intros H. simpl. now rewrite H. Qed.

Lemma checked_fields_strings (props : list (jsstring * value)) (e s b : jsstring) :
  string_field props (lit "email") e ->
  string_field props (lit "subject") s ->
  string_field props (lit "body") b ->
  checked_fields (VObject props)
  = Normal {| to := VString e; subject := VString s; body := VString b |}.
Proof.
  intros [He He'] [Hs Hs'] [Hb Hb']. unfold checked_fields.
  rewrite (Get_object _ _ _ He), (Get_object _ _ _ Hs), (Get_object _ _ _ Hb).
  destruct e; [contradiction|]. destruct s; [contradiction|].
  destruct b; [contradiction|]. reflexivity.
Qed.

(** The search in a text that holds an object between a prefix without
    opening brace and a suffix without closing brace. *)
Lemma exec_trim_object (pre mid post : jsstring) :
  ~ In lbrace pre -> ~ In rbrace post ->
  exec re_braces (trim (pre ++ (lbrace :: mid ++ [rbrace]) ++ post))
  = Some (lbrace :: mid ++ [rbrace]).
Proof.
  intros Hpre Hpost.
  replace (pre ++ (lbrace :: mid ++ [rbrace]) ++ post)
    with (pre ++ lbrace :: mid ++ rbrace :: post)
    by (simpl; now rewrite <- app_assoc).
  rewrite trim_braces. apply exec_braces_intro.
  - intros H. apply Hpre. now apply trimStart_In.
  - intros H. apply Hpost. now apply trimEnd_In.
Qed.

Lemma trim_object_nonempty (pre mid post : jsstring) :
  ToBoolean (VString (trim (pre ++ (lbrace :: mid ++ [rbrace]) ++ post))) = true.
Proof.
  replace (pre ++ (lbrace :: mid ++ [rbrace]) ++ post)
    with (pre ++ lbrace :: mid ++ rbrace :: post)
    by (simpl; now rewrite <- app_assoc).
  rewrite trim_braces. simpl.
  destruct (trimStart pre); reflexivity.
Qed.

(** C1 (amended): when the content of the model's message is the text of
    a JSON object whose keys email, subject and body have non-empty
    string values, with prose before it that has no opening brace and
    prose after it that has no closing brace, [getEmailDataFromAI]
    returns the command with exactly those three values. *)
Theorem extract_object_in_prose
  (h : Host) (t : option jsstring) (data : value)
  (pre obj post : jsstring) (props : list (jsstring * value))
  (e s b : jsstring) :
  chat_completion h (prompt_for (shown_text t)) = Normal data ->
  primary_content data = Some (pre ++ obj ++ post) ->
  ~ In lbrace pre -> ~ In rbrace post ->
  well_formed_object obj props ->
  string_field props (lit "email") e ->
  string_field props (lit "subject") s ->
  string_field props (lit "body") b ->
  snd (getEmailDataFromAI h (text_value t))
  = Normal (Some {| to := VString e; subject := VString s; body := VString b |}).
Proof.
  intros Hdata Hcontent Hpre Hpost [[mid ->] Hparse] He Hs Hb.
  rewrite getEmailDataFromAI_eq. cbn [snd].
  unfold extraction. rewrite Hdata. cbn [cbind].
  rewrite (message_text_primary _ _ Hcontent). cbn [cbind].
  unfold parsed_text. rewrite trim_object_nonempty. cbn [negb call_match cbind].
  rewrite (exec_trim_object _ _ _ Hpre Hpost), Hparse. cbn [cbind].
  now rewrite (checked_fields_strings _ _ _ _ He Hs Hb).
Qed.

Lemma not_In_forallb (x : code_unit) (l : jsstring) :
  forallb (fun c => negb (c =? x)%N) l = true -> ~ In x l.
Proof.
  intros H Hin. rewrite forallb_forall in H. specialize (H _ Hin).
  now rewrite N.eqb_refl in H.
Qed.

Lemma bob_object_well_formed : well_formed_object bob_object bob_props.
Proof.
  split; [exists (inside bob_object)|]; vm_compute; reflexivity.
Qed.

Lemma extract_object_in_prose_witness :
  snd (getEmailDataFromAI
         (host (lit "Sure! " ++ bob_object ++ lit " Done.")
            (Normal token_response) (Normal sent_response))
         (text_value (Some request)))
  = Normal (Some bob_command).
Proof.
  apply (extract_object_in_prose
           (host (lit "Sure! " ++ bob_object ++ lit " Done.")
              (Normal token_response) (Normal sent_response))
           (Some request)
           (answer (lit "Sure! " ++ bob_object ++ lit " Done."))
           (lit "Sure! ") bob_object (lit " Done.") bob_props
           (lit "bob@example.com") (lit "Meeting update")
           (lit "The meeting moved to 3pm.")).
  - reflexivity.
  - reflexivity.
  - apply not_In_forallb. reflexivity.
  - apply not_In_forallb. reflexivity.
  - exact bob_object_well_formed.
  - split; [reflexivity|discriminate].
  - split; [reflexivity|discriminate].
  - split; [reflexivity|discriminate].
Defined.

(** C1 as it is stated fails: the content is a well-formed object with
    the three strings, after prose that has braces of its own, and the
    result is [null]. *)
Lemma extract_object_after_braces :
  primary_content (answer (lit "Here {as asked}: " ++ bob_object ++ lit " Bye."))
  = Some (lit "Here {as asked}: " ++ bob_object ++ lit " Bye.")
  /\ well_formed_object bob_object bob_props
  /\ string_field bob_props (lit "email") (lit "bob@example.com")
  /\ string_field bob_props (lit "subject") (lit "Meeting update")
  /\ string_field bob_props (lit "body") (lit "The meeting moved to 3pm.")
  /\ snd (getEmailDataFromAI
            (host (lit "Here {as asked}: " ++ bob_object ++ lit " Bye.")
               (Normal token_response) (Normal sent_response))
            (text_value (Some request)))
     = Normal None.
Proof.
  split; [reflexivity|]. split; [exact bob_object_well_formed|].
  repeat split; try discriminate; vm_compute; reflexivity.
Qed.

(** The last occurrence of a code unit. *)
Lemma in_split_last (x : code_unit) (l : jsstring) :
  In x l -> exists a b, l = a ++ x :: b /\ ~ In x b.
Proof.
  induction l as [|y l IH]; intros H; [destruct H|].
  destruct (In_dec N.eq_dec x l) as [Hl|Hl].
  - destruct (IH Hl) as (a & b & -> & Hb). now exists (y :: a), b.
  - destruct H as [->|H]; [|contradiction]. now exists [], l.
Qed.

(** C10 (amended): the text [/\{.*\}/s] finds is the one from the first
    opening brace to the last closing brace of the content; so when the
    object that begins at the first opening brace is followed, anywhere
    later, by another closing brace, the text found is that object with
    more text after it, it is not JSON, and [getEmailDataFromAI] returns
    [null]. *)
Theorem greedy_braces_span :
  (forall s m : jsstring,
      exec re_braces s = Some m
      <-> exists pre mid post,
            s = pre ++ lbrace :: mid ++ rbrace :: post
            /\ m = lbrace :: mid ++ [rbrace]
            /\ ~ In lbrace pre /\ ~ In rbrace post)
  /\
  (forall (h : Host) (t : option jsstring) (data : value)
          (pre obj rest : jsstring) (props : list (jsstring * value)),
      chat_completion h (prompt_for (shown_text t)) = Normal data ->
      primary_content data = Some (pre ++ obj ++ rest) ->
      ~ In lbrace pre ->
      well_formed_object obj props ->
      In rbrace rest ->
      exists tail,
        tail <> []
        /\ exec re_braces (trim (pre ++ obj ++ rest)) = Some (obj ++ tail)
        /\ JSON.parse (obj ++ tail) = Throw SyntaxError
        /\ snd (getEmailDataFromAI h (text_value t)) = Normal None).
Proof.
  split.
  - intros s m. split.
    + apply exec_braces_inv.
    + intros (pre & mid & post & -> & -> & Hpre & Hpost).
      now apply exec_braces_intro.
  - intros h t data pre obj rest props Hdata Hcontent Hpre [[mid ->] Hparse] Hin.
    destruct (in_split_last _ _ Hin) as (r1 & r2 & -> & Hr2).
    exists (r1 ++ [rbrace]).
    assert (Hspan : (lbrace :: mid ++ [rbrace]) ++ r1 ++ [rbrace]
                    = lbrace :: (mid ++ rbrace :: r1) ++ [rbrace]).
    { simpl. now repeat rewrite <- app_assoc. }
    assert (Htext : pre ++ (lbrace :: mid ++ [rbrace]) ++ r1 ++ rbrace :: r2
                    = pre ++ (lbrace :: (mid ++ rbrace :: r1) ++ [rbrace]) ++ r2).
    { rewrite <- Hspan. now repeat rewrite <- app_assoc. }
    assert (Hexec : exec re_braces (trim (pre ++ (lbrace :: mid ++ [rbrace]) ++ r1 ++ rbrace :: r2))
                    = Some ((lbrace :: mid ++ [rbrace]) ++ r1 ++ [rbrace])).
    { rewrite Htext, Hspan. now apply exec_trim_object. }
    assert (Hfail : JSON.parse ((lbrace :: mid ++ [rbrace]) ++ r1 ++ [rbrace])
                    = Throw SyntaxError).
    { apply parse_object_then with (props := props) (c := rbrace); auto.
      apply in_or_app. right. now left. }
    repeat split; auto.
    + destruct r1; discriminate.
    + rewrite getEmailDataFromAI_eq. cbn [snd].
      unfold extraction. rewrite Hdata. cbn [cbind].
      rewrite (message_text_primary _ _ Hcontent). cbn [cbind].
      unfold parsed_text. rewrite Htext, trim_object_nonempty, <- Htext.
      cbn [negb call_match cbind]. rewrite Hexec, Hfail. reflexivity.
Qed.

Lemma greedy_braces_span_witness :
  exists tail,
    tail <> []
    /\ exec re_braces (trim (lit "Sure: " ++ bob_object ++ lit " and {} too"))
       = Some (bob_object ++ tail)
    /\ JSON.parse (bob_object ++ tail) = Throw SyntaxError
    /\ snd (getEmailDataFromAI
              (host (lit "Sure: " ++ bob_object ++ lit " and {} too")
                 (Normal token_response) (Normal sent_response))
              (text_value (Some request)))
       = Normal None.
Proof.
  apply (proj2 greedy_braces_span
           (host (lit "Sure: " ++ bob_object ++ lit " and {} too")
              (Normal token_response) (Normal sent_response))
           (Some request)
           (answer (lit "Sure: " ++ bob_object ++ lit " and {} too"))
           (lit "Sure: ") bob_object (lit " and {} too") bob_props).
  - reflexivity.
  - reflexivity.
  - apply not_In_forallb. reflexivity.
  - exact bob_object_well_formed.
  - vm_compute. tauto.
Defined.

(** C10 as it is stated fails: a well-formed object followed later by
    an opening brace alone is found whole and is returned. *)
Lemma extract_object_before_brace :
  primary_content (answer (bob_object ++ lit " {"))
  = Some (bob_object ++ lit " {")
  /\ well_formed_object bob_object bob_props
  /\ In lbrace (lit " {")
  /\ exec re_braces (trim (bob_object ++ lit " {")) = Some bob_object
  /\ snd (getEmailDataFromAI
            (host (bob_object ++ lit " {")
               (Normal token_response) (Normal sent_response))
            (text_value (Some request)))
     = Normal (Some bob_command).
Proof.
  split; [reflexivity|]. split; [exact bob_object_well_formed|].
  split; [right; left; reflexivity|].
  split; vm_compute; reflexivity.
Qed.

(** *** The checks *)

(** The own property [k] of a value, [undefined] when there is none. *)
Definition property (v : value) (k : jsstring) : value :=
  match v with
  | VObject props =>
      match lookup k props with
      | Some x => x
      | None => VUndefined
      end
  | _ => VUndefined
  end.

(** The response has no message content: the chain of accesses does not
    end in a string that is not empty. *)
Definition no_content (data : value) : Prop :=
  forall s, message_text data = Normal (VString s) -> s = [].

(** The content has no text between an opening and a closing brace. *)
Definition no_braces (content : jsstring) : Prop :=
  forall pre mid post, content <> pre ++ lbrace :: mid ++ rbrace :: post.

(** The test [!parsed.k] of the source. *)
Definition falsy_field (parsed : value) (k : jsstring) : Prop :=
  ToBoolean (property parsed k) = false.

(** The words of the specification for that test: the key is missing or
    its value is the empty string. *)
Definition missing_or_empty (parsed : value) (k : jsstring) : Prop :=
  property parsed k = VUndefined \/ property parsed k = VString [].

(** One of the checks fails, [bad] being the condition on a field. *)
Definition check_fails (bad : value -> jsstring -> Prop)
  (h : Host) (t : option jsstring) : Prop :=
  let answer := chat_completion h (prompt_for (shown_text t)) in
  (exists e, answer = Throw e)
  \/ exists data,
       answer = Normal data
       /\ (no_content data
           \/ exists text,
                message_text data = Normal (VString text) /\ text <> []
                /\ (no_braces text
                    \/ exists matched,
                         exec re_braces text = Some matched
                         /\ ((exists e, JSON.parse matched = Throw e)
                             \/ exists parsed,
                                  JSON.parse matched = Normal parsed
                                  /\ (bad parsed (lit "email")
                                      \/ bad parsed (lit "subject")
                                      \/ bad parsed (lit "body"))))).

Lemma Get_property (v : value) (k : jsstring) :
  Get v k = Normal (property v k)
  \/ (exists e, Get v k = Throw e) /\ property v k = VUndefined.
Proof.
  destruct v; simpl; auto; right; split; eauto.
Qed.

Lemma checked_fields_cases (parsed : value) :
  (checked_fields parsed
   = Normal {| to := property parsed (lit "email");
               subject := property parsed (lit "subject");
               body := property parsed (lit "body") |}
   /\ ToBoolean (property parsed (lit "email")) = true
   /\ ToBoolean (property parsed (lit "subject")) = true
   /\ ToBoolean (property parsed (lit "body")) = true)
  \/
  ((exists e, checked_fields parsed = Throw e)
   /\ (falsy_field parsed (lit "email")
       \/ falsy_field parsed (lit "subject")
       \/ falsy_field parsed (lit "body"))).
Proof.
  unfold checked_fields, falsy_field.
  destruct (Get_property parsed (lit "email")) as [->|[[e ->] He]]; cbn [cbind];
    [|right; split; [eauto|left; now rewrite He]].
  destruct (ToBoolean (property parsed (lit "email"))) eqn:E1; cbn [negb];
    [|right; split; eauto].
  destruct (Get_property parsed (lit "subject")) as [->|[[e ->] He]]; cbn [cbind];
    [|right; split; [eauto|right; left; now rewrite He]].
  destruct (ToBoolean (property parsed (lit "subject"))) eqn:E2; cbn [negb];
    [|right; split; eauto].
  destruct (Get_property parsed (lit "body")) as [->|[[e ->] He]]; cbn [cbind];
    [|right; split; [eauto|right; right; now rewrite He]].
  destruct (ToBoolean (property parsed (lit "body"))) eqn:E3; cbn [negb];
    [|right; split; eauto].
  left. auto.
Qed.

(** The chain of optional accesses ends in [undefined] or in a string. *)
Lemma message_text_cases (data v : value) :
  message_text data = Normal v -> v = VUndefined \/ exists s, v = VString s.
Proof.
  unfold message_text, optional, call_trim, cbind.
  repeat match goal with
         | |- context [match ?x with _ => _ end] => destruct x
         end;
    intros H; try discriminate; injection H as <-; eauto.
Qed.

Lemma exec_braces_none_iff (s : jsstring) :
  exec re_braces s = None <-> no_braces s.
Proof.
  split.
  - intros H pre mid post ->.
    destruct (exec_braces_some pre mid post) as [m Hm]. congruence.
  - intros H. destruct (exec re_braces s) as [m|] eqn:E; [|reflexivity].
    destruct (exec_braces_inv _ _ E) as (pre & mid & post & Hs & _).
    now destruct (H pre mid post).
Qed.

Lemma parsed_text_throws (text : jsstring) :
  text <> [] ->
  (exists e, parsed_text (VString text) = Throw e)
  <-> (no_braces text
       \/ exists matched,
            exec re_braces text = Some matched
            /\ ((exists e, JSON.parse matched = Throw e)
                \/ exists parsed,
                     JSON.parse matched = Normal parsed
                     /\ (falsy_field parsed (lit "email")
                         \/ falsy_field parsed (lit "subject")
                         \/ falsy_field parsed (lit "body")))).
Proof.
  intros Hne. unfold parsed_text.
  destruct text as [|c text]; [contradiction|]. cbn [ToBoolean negb call_match cbind].
  destruct (exec re_braces (c :: text)) as [matched|] eqn:E.
  - split.
    + intros [e He]. right. exists matched. split; [reflexivity|].
      destruct (JSON.parse matched) as [parsed|e'] eqn:Ep; [|eauto].
      right. exists parsed. split; [reflexivity|]. cbn [cbind] in He.
      destruct (checked_fields_cases parsed) as [[Hok _]|[_ Hbad]]; [congruence|exact Hbad].
    + intros [Hnb|(m & Hm & H)].
      * apply exec_braces_none_iff in Hnb. congruence.
      * injection Hm as <-. destruct H as [[e ->]|(parsed & -> & Hbad)]; cbn [cbind]; [eauto|].
        destruct (checked_fields_cases parsed) as [(_ & H1 & H2 & H3)|[Hthrow _]];
          [|exact Hthrow].
        unfold falsy_field in Hbad. destruct Hbad as [H|[H|H]]; congruence.
  - split; [|eauto]. intros _. left. now apply exec_braces_none_iff.
Qed.

Lemma extraction_throws (h : Host) (t : option jsstring) :
  (exists e, extraction h (shown_text t) = Throw e)
  <-> check_fails falsy_field h t.
Proof.
  unfold extraction, check_fails.
  destruct (chat_completion h (prompt_for (shown_text t))) as [data|e0]; cbn [cbind].
  2:{ split; [intros _; left; eauto|eauto]. }
  split.
  - intros [e He]. right. exists data. split; [reflexivity|].
    destruct (message_text data) as [v|e'] eqn:Et; cbn [cbind] in He.
    + destruct (message_text_cases _ _ Et) as [->|[text ->]].
      * left. intros s Hs. rewrite Et in Hs. discriminate.
      * destruct text as [|c text].
        -- left. intros s Hs. rewrite Et in Hs. now injection Hs as <-.
        -- right. exists (c :: text). repeat split; [discriminate|].
           apply parsed_text_throws; [discriminate|eauto].
    + left. intros s Hs. rewrite Et in Hs. discriminate.
  - intros [[e He]|(data' & Hd & H)]; [discriminate|]. injection Hd as <-.
    destruct H as [Hnc|(text & -> & Hne & H)]; cbn [cbind].
    + destruct (message_text data) as [v|e'] eqn:Et; cbn [cbind]; [|eauto].
      destruct (message_text_cases _ _ Et) as [->|[s ->]];
        [eexists; reflexivity|].
      rewrite (Hnc s Et). eexists; reflexivity.
    + now apply parsed_text_throws.
Qed.

(** C2 (amended): for a message text that is a string or [undefined],
    [getEmailDataFromAI] never throws, and it returns [null] exactly
    when one of its checks fails: the completion call
    throws, the response has no message content, the content has no text
    between braces, that text is not JSON, or the value of one of the
    keys email, subject and body is missing or falsy (the empty string,
    [null], [false] or a number that is zero). *)
Theorem extract_null_iff_check_fails (h : Host) (t : option jsstring) :
  exists trace r,
    getEmailDataFromAI h (text_value t) = (trace, Normal r)
    /\ (r = None <-> check_fails falsy_field h t).
Proof.
  rewrite getEmailDataFromAI_eq. do 2 eexists. split; [reflexivity|].
  rewrite <- extraction_throws.
  destruct (extraction h (shown_text t)) as [d|e].
  - split; [discriminate|]. intros [e He]. discriminate.
  - split; eauto.
Qed.

Definition false_email : jsstring :=
  object_text (lit "false") (quoted (lit "Hi")) (quoted (lit "Hello")).

(** C2 as it is stated fails: with [false] for the email the result is
    [null], though the call succeeded, the content has braces, the text
    between them is JSON and no key is missing or empty. *)
Lemma extract_null_for_false_email :
  snd (getEmailDataFromAI
         (host false_email (Normal token_response) (Normal sent_response))
         (text_value (Some request)))
  = Normal None
  /\ ~ check_fails missing_or_empty
        (host false_email (Normal token_response) (Normal sent_response))
        (Some request).
Proof.
  split; [vm_compute; reflexivity|].
  unfold check_fails. cbn [chat_completion host].
  intros [[e He]|(data & Hd & H)]; [discriminate|].
  injection Hd as <-.
  assert (Ht : message_text (answer false_email) = Normal (VString false_email))
    by (vm_compute; reflexivity).
  destruct H as [Hnc|(text & Htext & _ & H)].
  - specialize (Hnc _ Ht). discriminate.
  - rewrite Ht in Htext. injection Htext as <-.
    destruct H as [Hnb|(matched & Hm & H)].
    + apply (Hnb [] (inside false_email) []). vm_compute. reflexivity.
    + assert (Hx : exec re_braces false_email = Some false_email)
        by (vm_compute; reflexivity).
      rewrite Hx in Hm. injection Hm as <-.
      assert (Hp : JSON.parse false_email
                   = Normal (VObject [(lit "email", VBool false);
                                      (lit "subject", VString (lit "Hi"));
                                      (lit "body", VString (lit "Hello"))]))
        by (vm_compute; reflexivity).
      rewrite Hp in H.
      destruct H as [[e He]|(parsed & Hq & Hbad)]; [discriminate|].
      injection Hq as <-.
      destruct Hbad as [[H|H]|[[H|H]|[H|H]]]; vm_compute in H; discriminate.
Qed.

(** *** The recipient *)

Fixpoint has_at_sign (local_empty : bool) (s : jsstring) : bool :=
  match s with
  | [] => false
  | c :: rest =>
      if chr "@" c then
        negb local_empty && match rest with [] => false | _ :: _ => true end
      else has_at_sign false rest
  end.

(** The least that any check of the syntax of an email address asks: a
    string with an at sign that has text before and after it. *)
Definition valid_email_syntax (v : value) : bool :=
  match v with
  | VString s => has_at_sign true s
  | _ => false
  end.

(** C8 (amended): the recipient of a command that
    [getEmailDataFromAI] returns is the value of the key email of the
    object found in the model's message, and all that is checked of it
    is that it is truthy; its syntax is not validated. *)
Theorem extract_recipient_unvalidated
  (h : Host) (t : option jsstring) (d : EmailData) :
  snd (getEmailDataFromAI h (text_value t)) = Normal (Some d) ->
  exists data text matched parsed,
    chat_completion h (prompt_for (shown_text t)) = Normal data
    /\ message_text data = Normal (VString text)
    /\ exec re_braces text = Some matched
    /\ JSON.parse matched = Normal parsed
    /\ to d = property parsed (lit "email")
    /\ subject d = property parsed (lit "subject")
    /\ body d = property parsed (lit "body")
    /\ ToBoolean (to d) = true
    /\ ToBoolean (subject d) = true
    /\ ToBoolean (body d) = true.
Proof.
  rewrite getEmailDataFromAI_eq. cbn [snd]. unfold extraction.
  destruct (chat_completion h (prompt_for (shown_text t))) as [data|e];
    cbn [cbind]; [|discriminate].
  destruct (message_text data) as [v|e] eqn:Et; cbn [cbind]; [|discriminate].
  unfold parsed_text.
  destruct (message_text_cases _ _ Et) as [->|[text ->]]; [discriminate|].
  destruct (negb (ToBoolean (VString text))); [discriminate|].
  cbn [call_match cbind].
  destruct (exec re_braces text) as [matched|] eqn:Em; [|discriminate].
  destruct (JSON.parse matched) as [parsed|e] eqn:Ep; cbn [cbind]; [|discriminate].
  destruct (checked_fields_cases parsed) as [(-> & H1 & H2 & H3)|[[e ->] _]];
    [|discriminate].
  intros H. injection H as <-. cbn [to subject body].
  exists data, text, matched, parsed. repeat split; auto.
Qed.

Definition nobody_object : jsstring :=
  object_text (quoted (lit "nobody")) (quoted (lit "Hi")) (quoted (lit "Hello")).

Definition nobody_command : EmailData :=
  {| to := VString (lit "nobody");
     subject := VString (lit "Hi");
     body := VString (lit "Hello") |}.

Lemma extract_nobody :
  snd (getEmailDataFromAI
         (host nobody_object (Normal token_response) (Normal sent_response))
         (text_value (Some request)))
  = Normal (Some nobody_command).
Proof. vm_compute. reflexivity. Qed.

Lemma extract_recipient_unvalidated_witness :
  exists data text matched parsed,
    chat_completion (host nobody_object (Normal token_response) (Normal sent_response))
      (prompt_for (shown_text (Some request))) = Normal data
    /\ message_text data = Normal (VString text)
    /\ exec re_braces text = Some matched
    /\ JSON.parse matched = Normal parsed
    /\ to nobody_command = property parsed (lit "email")
    /\ subject nobody_command = property parsed (lit "subject")
    /\ body nobody_command = property parsed (lit "body")
    /\ ToBoolean (to nobody_command) = true
    /\ ToBoolean (subject nobody_command) = true
    /\ ToBoolean (body nobody_command) = true.
Proof.
  exact (extract_recipient_unvalidated
           (host nobody_object (Normal token_response) (Normal sent_response))
           (Some request) nobody_command extract_nobody).
Defined.

(** C8 as it is stated fails: a command is returned whose recipient has
    no at sign. *)
Lemma extract_recipient_without_at_sign :
  exists d,
    snd (getEmailDataFromAI
           (host nobody_object (Normal token_response) (Normal sent_response))
           (text_value (Some request)))
    = Normal (Some d)
    /\ valid_email_syntax (to d) = false.
Proof.
  exists nobody_command. split; [exact extract_nobody|reflexivity].
Qed.

End Extractor.

(** ** The encoding of the message *)

Module EncodingFacts.

Import App.

Ltac nlia := zify; Z.to_euclidean_division_equations; lia.

(** Induction three bytes at a time. *)
Lemma list_ind3 (A : Type) (P : list A -> Prop) :
  P [] ->
  (forall a, P [a]) ->
  (forall a b, P [a; b]) ->
  (forall a b c l, P l -> P (a :: b :: c :: l)) ->
  forall l, P l.
Proof.
  intros H0 H1 H2 H3 l.
  enough (H : P l /\ (forall a, P (a :: l)) /\ (forall a b, P (a :: b :: l)))
    by apply H.
  induction l as [|x l (IH0 & IH1 & IH2)].
  - auto.
  - repeat split; auto.
Qed.

(** The character that stands for [i] once [+] and [/] are replaced. *)
Definition url_char (i : N) : code_unit :=
  let c := alphabet i in
  if chr "+" c then ch "-" else if chr "/" c then ch "_" else c.

(** Unpadded base64url, the encoding the three replacements amount
    to. *)
Fixpoint base64url (bs : list byte) : jsstring :=
  match bs with
  | [] => []
  | [a] => [url_char (a / 4); url_char (a mod 4 * 16)]%N
  | [a; b] =>
      [url_char (a / 4); url_char (a mod 4 * 16 + b / 16);
       url_char (b mod 16 * 4)]%N
  | a :: b :: c :: rest =>
      [url_char (a / 4); url_char (a mod 4 * 16 + b / 16);
       url_char (b mod 16 * 4 + c / 64); url_char (c mod 64)]%N
      ++ base64url rest
  end.

Definition padding (bs : list byte) : jsstring :=
  match (List.length bs mod 3)%nat with
  | 1%nat => [ch "="; ch "="]
  | 2%nat => [ch "="]
  | _ => []
  end.

Definition url_safe (c : code_unit) : Prop :=
  c <> ch "+" /\ c <> ch "/" /\ c <> ch "=".

Lemma ch_values :
  ch "+" = 43%N /\ ch "/" = 47%N /\ ch "=" = 61%N /\ ch "-" = 45%N /\ ch "_" = 95%N.
Proof. repeat split. Qed.

Lemma url_char_safe (i : N) : url_safe (url_char i).
Proof.
  destruct ch_values as (Hp & Hs & He & Hm & Hu).
  unfold url_safe, url_char, alphabet, chr. rewrite Hp, Hs, He, Hm, Hu.
  destruct (N.ltb_spec i 26); [|destruct (N.ltb_spec i 52);
    [|destruct (N.ltb_spec i 62); [|destruct (N.eqb_spec i 62)]]];
    repeat match goal with
           | |- context [N.eqb ?a ?b] => destruct (N.eqb_spec a b)
           end; repeat split; lia.
Qed.

Lemma url_index_char (i : N) : (i < 64)%N -> url_index (url_char i) = Some i.
Proof.
  intros Hi.
  destruct ch_values as (Hp & Hs & He & Hm & Hu).
  unfold url_index, url_char, alphabet, chr. rewrite Hp, Hs, Hm, Hu.
  destruct (N.ltb_spec i 26); [|destruct (N.ltb_spec i 52);
    [|destruct (N.ltb_spec i 62); [|destruct (N.eqb_spec i 62)]]];
    repeat match goal with
           | |- context [N.eqb ?a ?b] => destruct (N.eqb_spec a b)
           | |- context [N.leb ?a ?b] => destruct (N.leb_spec a b)
           end; cbn [andb]; try lia; f_equal; lia.
Qed.

(** A global replacement of one character by another is a map. *)
Lemma replace_all_char (a : ascii) (d : code_unit) (s : jsstring) :
  replace_all [One (chr a)] [d] 0 s
  = map (fun c => if chr a c then d else c) s.
Proof.
  induction s as [|c s IH]; [reflexivity|].
  cbn [replace_all matchp map]. destruct (chr a c); cbn [option_map List.length app];
    now rewrite IH.
Qed.

Definition equals (n : nat) : jsstring := repeat (ch "=") n.

Lemma star_equals (n : nat) :
  star (chr "=") (matchp [Eos]) (equals n) = Some (equals n).
Proof.
  induction n as [|n IH]; [reflexivity|].
  cbn [equals repeat star]. change (chr "=" (ch "=")) with true.
  fold (equals n). now rewrite IH.
Qed.

Lemma matchp_padding_equals (n : nat) :
  matchp re_padding (equals (S n)) = Some (equals (S n)).
Proof.
  cbn [re_padding matchp equals repeat]. change (chr "=" (ch "=")) with true.
  fold (equals n). now rewrite star_equals.
Qed.

Lemma replace_first_eq (p : pattern) (rep s : jsstring) :
  replace_first p rep s
  = match matchp p s with
    | Some m => rep ++ skipn (List.length m) s
    | None => match s with [] => [] | c :: s' => c :: replace_first p rep s' end
    end.
Proof. destruct s; reflexivity. Qed.

(** [/=+$/] takes the equals signs at the end of a text that has no
    other. *)
Lemma replace_first_padding (text : jsstring) (n : nat) :
  ~ In (ch "=") text ->
  replace_first re_padding [] (text ++ equals n) = text.
Proof.
  intros Hn. induction text as [|c text IH].
  - destruct n as [|n]; [reflexivity|]. cbn [app].
    rewrite replace_first_eq, matchp_padding_equals.
    cbn [app]. apply skipn_all.
  - cbn [app]. rewrite replace_first_eq.
    replace (matchp re_padding (c :: text ++ equals n)) with (@None jsstring).
    + f_equal. apply IH. intros H. apply Hn. now right.
    + cbn [re_padding matchp]. destruct (chr "=" c) eqn:E; [|reflexivity].
      apply RegExpFacts.chr_true in E. exfalso. apply Hn. now left.
Qed.

(** The three replacements turn padded base64 into unpadded base64url. *)
Lemma replaced_base64 (bs : list byte) :
  map (fun c => if chr "/" c then ch "_" else c)
    (map (fun c => if chr "+" c then ch "-" else c) (toString_base64 bs))
  = base64url bs ++ padding bs.
Proof.
  assert (Hc : forall i,
             (fun c => if chr "/" c then ch "_" else c)
               ((fun c => if chr "+" c then ch "-" else c) (alphabet i))
             = url_char i).
  { intros i. unfold url_char. cbv beta.
    destruct (chr "+" (alphabet i)) eqn:E1; [reflexivity|reflexivity]. }
  cbv beta in Hc.
  induction bs as [|a|a b|a b c bs IH] using list_ind3.
  - reflexivity.
  - cbn [toString_base64 map base64url app]. now rewrite !Hc.
  - cbn [toString_base64 map base64url app]. now rewrite !Hc.
  - cbn [toString_base64 base64url]. rewrite !map_app. cbn [map app].
    rewrite !Hc, IH. unfold padding. cbn [List.length].
    replace (S (S (S (List.length bs))) mod 3)%nat with (List.length bs mod 3)%nat;
      [reflexivity|].
    change (S (S (S (List.length bs)))) with (3 + List.length bs)%nat.
    rewrite Nat.add_comm. change 3%nat with (1 * 3)%nat at 2.
    now rewrite Nat.Div0.mod_add.
Qed.

Lemma base64url_safe (bs : list byte) : Forall url_safe (base64url bs).
Proof.
  induction bs as [|a|a b|a b c bs IH] using list_ind3;
    cbn [base64url app]; repeat (apply Forall_cons; [apply url_char_safe|]);
    auto.
Qed.

Lemma padding_equals (bs : list byte) : exists n, padding bs = equals n.
Proof.
  unfold padding. destruct (List.length bs mod 3)%nat as [|[|[|k]]].
  - now exists 0%nat.
  - now exists 2%nat.
  - now exists 1%nat.
  - now exists 0%nat.
Qed.

(** [encodedMessage] is unpadded base64url of the UTF-8 bytes. *)
Lemma encodedMessage_eq (email : jsstring) :
  encodedMessage email = base64url (from email).
Proof.
  unfold encodedMessage, re_plus, re_slash.
  change (lit "_") with [ch "_"]. change (lit "-") with [ch "-"].
  rewrite !replace_all_char, replaced_base64.
  destruct (padding_equals (from email)) as [n ->].
  apply replace_first_padding.
  intros Hin. pose proof (base64url_safe (from email)) as Hs.
  rewrite Forall_forall in Hs. now destruct (Hs _ Hin) as (_ & _ & He).
Qed.

Definition is_byte (b : byte) : Prop := (b < 256)%N.

(** Decoding undoes the encoding of bytes. *)
Lemma decode_base64url (bs : list byte) :
  Forall is_byte bs -> base64url_decode (base64url bs) = Some bs.
Proof.
  unfold is_byte.
  induction bs as [|a|a b|a b c bs IH] using list_ind3; intros Hb.
  - reflexivity.
  - inversion_clear Hb as [|? ? Ha _].
    cbn [base64url base64url_decode].
    rewrite !url_index_char by nlia.
    replace ((a mod 4 * 16) mod 16 =? 0)%N with true by (symmetry; apply N.eqb_eq; nlia).
    do 2 f_equal. nlia.
  - inversion_clear Hb as [|? ? Ha Hb']. inversion_clear Hb' as [|? ? Hb _].
    cbn [base64url base64url_decode].
    rewrite !url_index_char by nlia.
    replace ((b mod 16 * 4) mod 4 =? 0)%N with true by (symmetry; apply N.eqb_eq; nlia).
    f_equal. f_equal; [nlia|]. f_equal. nlia.
  - inversion_clear Hb as [|? ? Ha Hb']. inversion_clear Hb' as [|? ? Hb Hc'].
    inversion_clear Hc' as [|? ? Hc Hrest].
    cbn [base64url app base64url_decode].
    rewrite !url_index_char by nlia. rewrite (IH Hrest).
    f_equal. f_equal; [nlia|]. f_equal; [nlia|]. f_equal. nlia.
Qed.

Lemma utf8_bytes (cp : N) : Forall is_byte (utf8 cp).
Proof.
  unfold utf8, continuation, is_byte.
  destruct (N.ltb_spec cp 128); [|destruct (N.ltb_spec cp 2048);
    [|destruct (N.ltb_spec cp 65536)]]; repeat constructor; nlia.
Qed.

Lemma from_bytes (s : jsstring) : Forall is_byte (from s).
Proof.
  enough (H : forall n s, (List.length s <= n)%nat -> Forall is_byte (from s))
    by (apply (H (List.length s)); lia).
  clear s. intros n. induction n as [|n IH]; intros s Hlen.
  - destruct s; [constructor|simpl in Hlen; lia].
  - destruct s as [|c s]; [constructor|]. cbn [from].
    assert (Hrep : Forall is_byte replacement)
      by (repeat constructor; unfold is_byte; lia).
    simpl in Hlen.
    destruct (is_high_surrogate c).
    + destruct s as [|d s]; [exact Hrep|].
      destruct (is_low_surrogate d); apply Forall_app; split;
        auto using utf8_bytes; apply IH; simpl in *; lia.
    + destruct (is_low_surrogate c); apply Forall_app; split;
        auto using utf8_bytes; apply IH; lia.
Qed.

(** C3: the encoding that [sendMail] applies to the message has no [+],
    no [/] and no [=], and decoding it as base64url gives back the bytes
    of the message, its UTF-8 encoding. *)
Theorem encodedMessage_roundtrip (email : jsstring) :
  Forall (fun c => c <> ch "+" /\ c <> ch "/" /\ c <> ch "=") (encodedMessage email)
  /\ base64url_decode (encodedMessage email) = Some (from email).
Proof.
  rewrite encodedMessage_eq. split.
  - exact (base64url_safe (from email)).
  - apply decode_base64url, from_bytes.
Qed.

End EncodingFacts.

(** ** The dispatcher *)

Module Dispatcher.

Import App ExtractorFacts Samples.
Local Open Scope js_scope.

(** The message [sendMail] builds for a command of three strings. *)
Definition envelope (userEmail recipient subject body : jsstring) : jsstring :=
  lit "From: " ++ quoted (lit "Email Bot") ++ lit " <" ++ userEmail ++ lit ">"
  ++ CRLF ++ lit "To: " ++ recipient
  ++ CRLF ++ lit "Subject: " ++ subject
  ++ CRLF ++ lit "Content-Type: text/plain; charset=" ++ quoted (lit "UTF-8")
  ++ CRLF
  ++ CRLF ++ body.

Definition strings (recipient subject body : jsstring) : EmailData :=
  {| to := VString recipient; subject := VString subject; body := VString body |}.

Lemma email_message_strings (h : Host) (userEmail recipient subject body : jsstring) :
  email_message h userEmail (strings recipient subject body)
  = Normal (envelope userEmail recipient subject body).
Proof.
  unfold email_message, strings, envelope. cbn [to App.subject App.body ToString join_element cbind join].
  repeat rewrite <- app_assoc. reflexivity.
Qed.

(** For any command the message, when there is one, is that of the
    string forms of its three fields. *)
Lemma email_message_inv (h : Host) (userEmail : jsstring) (d : EmailData) (email : jsstring) :
  email_message h userEmail d = Normal email ->
  exists recipient subject body,
    ToString (Number_toString h) (to d) = Normal recipient
    /\ ToString (Number_toString h) (App.subject d) = Normal subject
    /\ join_element h (App.body d) = Normal body
    /\ email = envelope userEmail recipient subject body.
Proof.
  unfold email_message.
  destruct (ToString (Number_toString h) (to d)) as [r|e]; [|discriminate].
  destruct (ToString (Number_toString h) (App.subject d)) as [s|e]; [|discriminate].
  destruct (join_element h (App.body d)) as [b|e]; [|discriminate].
  cbn [cbind]. intros H. injection H as <-.
  exists r, s, b. repeat split.
  unfold envelope. cbn [join]. repeat rewrite <- app_assoc. reflexivity.
Qed.

(** The steps of [sendMail] up to the request to the provider. *)
Definition token_granted (h : Host) : Prop :=
  exists response token,
    getAccessToken h = Normal response
    /\ Get response (lit "token") = Normal token
    /\ ToBoolean token = true.

Lemma sendMail_submits (h : Host) (userEmail : jsstring) (d : EmailData) (email : jsstring) :
  token_granted h ->
  email_message h userEmail d = Normal email ->
  exists rest,
    fst (sendMail h userEmail d)
    = GetAccessToken :: GmailSend (encodedMessage email) :: rest.
Proof.
  intros (response & token & Hr & Ht & Hb) He.
  unfold sendMail. run_m. rewrite Hr. run_m. rewrite Ht. run_m. rewrite Hb.
  cbn [negb]. rewrite He. run_m.
  destruct (messages_send h (encodedMessage email)) as [res|e]; run_m; [|eauto].
  destruct (Get res (lit "data")) as [data|e]; run_m; [|eauto].
  destruct (Get data (lit "id")) as [id|e]; run_m; [|eauto].
  destruct (ToString (Number_toString h) id) as [shown|e]; run_m; eauto.
Qed.

(** C4: for a command of three strings the message is the From line
    with the configured sender, the To line with the recipient, the
    Subject line, the plain-text content type, an empty line and the
    body, with CRLF between them; that message, encoded, is what
    [sendMail] submits once it has a token. *)
Theorem sendMail_envelope
  (h : Host) (userEmail recipient subject body : jsstring) :
  email_message h userEmail (strings recipient subject body)
  = Normal (join CRLF
              [lit "From: " ++ quoted (lit "Email Bot") ++ lit " <" ++ userEmail ++ lit ">";
               lit "To: " ++ recipient;
               lit "Subject: " ++ subject;
               lit "Content-Type: text/plain; charset=" ++ quoted (lit "UTF-8");
               [];
               body])
  /\ join CRLF
       [lit "From: " ++ quoted (lit "Email Bot") ++ lit " <" ++ userEmail ++ lit ">";
        lit "To: " ++ recipient;
        lit "Subject: " ++ subject;
        lit "Content-Type: text/plain; charset=" ++ quoted (lit "UTF-8");
        [];
        body]
     = envelope userEmail recipient subject body
  /\ (token_granted h ->
      exists rest,
        fst (sendMail h userEmail (strings recipient subject body))
        = GetAccessToken
            :: GmailSend (encodedMessage (envelope userEmail recipient subject body))
            :: rest).
Proof.
  split; [reflexivity|]. split.
  - unfold envelope. cbn [join]. repeat rewrite <- app_assoc. reflexivity.
  - intros Htoken. apply sendMail_submits; [exact Htoken|].
    apply email_message_strings.
Qed.

(** An error of the token request or of the send request. *)
Definition send_error (h : Host) (userEmail : jsstring) (d : EmailData) (e : error) : Prop :=
  getAccessToken h = Throw e
  \/ (token_granted h
      /\ exists email,
           email_message h userEmail d = Normal email
           /\ messages_send h (encodedMessage email) = Throw e).

(** C5 (amended): when the token request or the send request fails,
    [sendMail] catches the error, logs it and throws the same error to
    its caller; it does not return a result in its place. *)
Theorem sendMail_rethrows
  (h : Host) (userEmail : jsstring) (d : EmailData) (e : error) :
  send_error h userEmail d e ->
  exists trace,
    sendMail h userEmail d
    = (trace ++ [ConsoleError (lit "Error sending email:") (Some e)], Throw e).
Proof.
  intros [Hr|[(response & token & Hr & Ht & Hb) (email & He & Hs)]];
    unfold sendMail; run_m; rewrite Hr; run_m.
  - now exists [GetAccessToken].
  - rewrite Ht. run_m. rewrite Hb. cbn [negb]. rewrite He. run_m.
    rewrite Hs. run_m.
    now exists [GetAccessToken; GmailSend (encodedMessage email)].
Qed.

Definition failing_provider : Host :=
  host bob_object (Normal token_response) (Throw (HostError 503)).

Lemma sendMail_rethrows_witness :
  exists trace,
    sendMail failing_provider (lit "bot@example.com") bob_command
    = (trace ++ [ConsoleError (lit "Error sending email:") (Some (HostError 503))],
       Throw (HostError 503)).
Proof.
  apply (sendMail_rethrows failing_provider (lit "bot@example.com") bob_command
           (HostError 503)).
  right. split.
  - exists token_response, (VString (lit "ya29.a0")). repeat split.
  - eexists. split; reflexivity.
Defined.

(** C5 as it is stated fails: the provider's error comes out of
    [sendMail] as a throw, and no result is returned. *)
Lemma sendMail_throws_provider_error :
  send_error failing_provider (lit "bot@example.com") bob_command (HostError 503)
  /\ snd (sendMail failing_provider (lit "bot@example.com") bob_command)
     = Throw (HostError 503)
  /\ forall result,
       snd (sendMail failing_provider (lit "bot@example.com") bob_command)
       <> Normal result.
Proof.
  split; [|split; [vm_compute; reflexivity|intros result; vm_compute; discriminate]].
  right. split.
  - exists token_response, (VString (lit "ya29.a0")). repeat split.
  - eexists. split; reflexivity.
Qed.

(** [sendMail] asks for a token before anything else, and says nothing
    in the chat. *)
Lemma sendMail_starts (h : Host) (userEmail : jsstring) (d : EmailData) :
  exists rest, fst (sendMail h userEmail d) = GetAccessToken :: rest.
Proof.
  unfold sendMail. run_m.
  destruct (getAccessToken h) as [response|e]; run_m; [|eauto].
  destruct (Get response (lit "token")) as [token|e]; run_m; [|eauto].
  destruct (negb (ToBoolean token)); run_m; [eauto|].
  destruct (email_message h userEmail d) as [email|e]; run_m; [|eauto].
  destruct (messages_send h (encodedMessage email)) as [res|e]; run_m; [|eauto].
  destruct (Get res (lit "data")) as [data|e]; run_m; [|eauto].
  destruct (Get data (lit "id")) as [id|e]; run_m; [|eauto].
  destruct (ToString (Number_toString h) id) as [shown|e]; run_m; eauto.
Qed.

(** What a trace says in the chat. *)
Definition chat_messages (t : list event) : list (Z * jsstring) :=
  flat_map (fun e => match e with SendMessage c s => [(c, s)] | _ => [] end) t.

Lemma sendMail_silent (h : Host) (userEmail : jsstring) (d : EmailData) :
  chat_messages (fst (sendMail h userEmail d)) = [].
Proof.
  unfold sendMail. run_m.
  destruct (getAccessToken h) as [response|e]; run_m; [|reflexivity].
  destruct (Get response (lit "token")) as [token|e]; run_m; [|reflexivity].
  destruct (negb (ToBoolean token)); run_m; [reflexivity|].
  destruct (email_message h userEmail d) as [email|e]; run_m; [|reflexivity].
  destruct (messages_send h (encodedMessage email)) as [res|e]; run_m; [|reflexivity].
  destruct (Get res (lit "data")) as [data|e]; run_m; [|reflexivity].
  destruct (Get data (lit "id")) as [id|e]; run_m; [|reflexivity].
  destruct (ToString (Number_toString h) id) as [shown|e]; run_m; reflexivity.
Qed.

End Dispatcher.

(** ** The message handler *)

Module Bridge.

Import App ExtractorFacts Samples Dispatcher.
Local Open Scope js_scope.

Definition received (msg : Message) : event :=
  ConsoleLog (lit "Received message:") (Some (text_value (text msg))).

Lemma extractor_silent (h : Host) (t : option jsstring) :
  chat_messages (fst (getEmailDataFromAI h (text_value t))) = []
  /\ Forall (fun e => is_dispatch_event e = false)
       (fst (getEmailDataFromAI h (text_value t))).
Proof.
  rewrite getEmailDataFromAI_eq. cbn [fst].
  destruct (extraction h (shown_text t)); split; repeat constructor.
Qed.

Lemma chat_messages_app (a b : list event) :
  chat_messages (a ++ b) = chat_messages a ++ chat_messages b.
Proof. apply flat_map_app. Qed.

(** C6: when the extraction gives a command and [sendMail] throws,
    whatever the error, the handler completes normally and its last act
    is to send the failure text, a constant, to the chat of the message;
    nothing else is said in that chat. *)
Theorem dispatch_failure_acknowledged
  (h : Host) (userEmail : jsstring) (msg : Message)
  (d : EmailData) (extracting sending : list event) (e : error) :
  getEmailDataFromAI h (text_value (text msg)) = (extracting, Normal (Some d)) ->
  sendMail h userEmail d = (sending, Throw e) ->
  on_message h userEmail msg
  = (received msg :: extracting ++ sending ++ [SendMessage (chat_id msg) send_failed],
     Normal tt)
  /\ chat_messages (fst (on_message h userEmail msg))
     = [(chat_id msg, send_failed)].
Proof.
  intros Hx Hs.
  assert (Heq : on_message h userEmail msg
                = (received msg :: extracting ++ sending
                     ++ [SendMessage (chat_id msg) send_failed], Normal tt)).
  { unfold on_message. run_m. rewrite Hx. run_m. rewrite Hs. run_m. reflexivity. }
  split; [exact Heq|]. rewrite Heq. cbn [fst].
  change (received msg :: extracting ++ sending ++ [SendMessage (chat_id msg) send_failed])
    with ([received msg] ++ extracting ++ sending ++ [SendMessage (chat_id msg) send_failed]).
  rewrite !chat_messages_app.
  pose proof (extractor_silent h (text msg)) as [Hq _]. rewrite Hx in Hq.
  pose proof (sendMail_silent h userEmail d) as Hq'. rewrite Hs in Hq'.
  cbn [fst] in Hq, Hq'. rewrite Hq, Hq'. reflexivity.
Qed.

Definition bob_message : Message := {| chat_id := 42; text := Some request |}.

Lemma dispatch_failure_acknowledged_witness :
  on_message failing_provider (lit "bot@example.com") bob_message
  = (received bob_message
       :: fst (getEmailDataFromAI failing_provider (text_value (text bob_message)))
       ++ fst (sendMail failing_provider (lit "bot@example.com") bob_command)
       ++ [SendMessage (chat_id bob_message) send_failed],
     Normal tt)
  /\ chat_messages (fst (on_message failing_provider (lit "bot@example.com") bob_message))
     = [(chat_id bob_message, send_failed)].
Proof.
  apply (dispatch_failure_acknowledged failing_provider (lit "bot@example.com")
           bob_message bob_command
           (fst (getEmailDataFromAI failing_provider (text_value (text bob_message))))
           (fst (sendMail failing_provider (lit "bot@example.com") bob_command))
           (HostError 503)).
  - vm_compute. reflexivity.
  - vm_compute. reflexivity.
Defined.

(** C7: when the extraction gives [null], the handler sends the text of
    the extraction failure to the chat and stops: [sendMail], which
    would first ask for a token, is not called. *)
Theorem extraction_failure_acknowledged
  (h : Host) (userEmail : jsstring) (msg : Message) (extracting : list event) :
  getEmailDataFromAI h (text_value (text msg)) = (extracting, Normal None) ->
  on_message h userEmail msg
  = (received msg :: extracting ++ [SendMessage (chat_id msg) extraction_failed],
     Normal tt)
  /\ chat_messages (fst (on_message h userEmail msg))
     = [(chat_id msg, extraction_failed)]
  /\ Forall (fun e => is_dispatch_event e = false) (fst (on_message h userEmail msg)).
Proof.
  intros Hx.
  assert (Heq : on_message h userEmail msg
                = (received msg :: extracting
                     ++ [SendMessage (chat_id msg) extraction_failed], Normal tt)).
  { unfold on_message. run_m. rewrite Hx. run_m. reflexivity. }
  pose proof (extractor_silent h (text msg)) as [Hq Hd]. rewrite Hx in Hq, Hd.
  cbn [fst] in Hq, Hd.
  split; [exact Heq|]. rewrite Heq. cbn [fst]. split.
  - change (received msg :: extracting ++ [SendMessage (chat_id msg) extraction_failed])
      with ([received msg] ++ extracting ++ [SendMessage (chat_id msg) extraction_failed]).
    rewrite !chat_messages_app, Hq. reflexivity.
  - constructor; [reflexivity|]. apply Forall_app. split; [exact Hd|].
    now repeat constructor.
Qed.

Definition prose_only : Host :=
  host (lit "I am sorry, I cannot tell whom to write to.")
    (Normal token_response) (Normal sent_response).

Lemma extraction_failure_acknowledged_witness :
  on_message prose_only (lit "bot@example.com") bob_message
  = (received bob_message
       :: fst (getEmailDataFromAI prose_only (text_value (text bob_message)))
       ++ [SendMessage (chat_id bob_message) extraction_failed],
     Normal tt)
  /\ chat_messages (fst (on_message prose_only (lit "bot@example.com") bob_message))
     = [(chat_id bob_message, extraction_failed)]
  /\ Forall (fun e => is_dispatch_event e = false)
       (fst (on_message prose_only (lit "bot@example.com") bob_message)).
Proof.
  apply (extraction_failure_acknowledged prose_only (lit "bot@example.com")
           bob_message
           (fst (getEmailDataFromAI prose_only (text_value (text bob_message))))).
  vm_compute. reflexivity.
Defined.

(** The handler never throws. *)
Lemma on_message_completes (h : Host) (userEmail : jsstring) (msg : Message) :
  snd (on_message h userEmail msg) = Normal tt.
Proof.
  unfold on_message. run_m.
  rewrite getEmailDataFromAI_eq. run_m.
  destruct (extraction h (shown_text (text msg))) as [d|e]; run_m; [|reflexivity].
  destruct (sendMail h userEmail d) as [sending [r|e]]; run_m; [|reflexivity].
  destruct (ToString (Number_toString h) (to d)); run_m; reflexivity.
Qed.

End Bridge.

(** ** The two ways the process starts *)

Module Startup.

Import App ExtractorFacts Samples Dispatcher Bridge.
Local Open Scope js_scope.

(** Events of the handler of chat messages, and of the handler of the
    OAuth callback. *)
Definition handler_event (e : event) : bool :=
  match e with
  | ConsoleLog _ _ | ConsoleError _ _ | Fetch _ | GetAccessToken
  | GmailSend _ | SendMessage _ _ => true
  | _ => false
  end.

Definition callback_event (e : event) : bool :=
  match e with
  | ConsoleLog _ _ | ConsoleError _ _ | GetToken _ | HttpSend _
  | ExitScheduled => true
  | _ => false
  end.

Definition is_auth_url (e : event) : bool :=
  match e with
  | GenerateAuthUrl => true
  | _ => false
  end.

Lemma sendMail_events (h : Host) (userEmail : jsstring) (d : EmailData) :
  Forall (fun e => handler_event e = true) (fst (sendMail h userEmail d)).
Proof.
  unfold sendMail. run_m.
  destruct (getAccessToken h) as [response|e]; run_m; [|now repeat constructor].
  destruct (Get response (lit "token")) as [token|e]; run_m; [|now repeat constructor].
  destruct (negb (ToBoolean token)); run_m; [now repeat constructor|].
  destruct (email_message h userEmail d) as [email|e]; run_m; [|now repeat constructor].
  destruct (messages_send h (encodedMessage email)) as [res|e]; run_m;
    [|now repeat constructor].
  destruct (Get res (lit "data")) as [data|e]; run_m; [|now repeat constructor].
  destruct (Get data (lit "id")) as [id|e]; run_m; [|now repeat constructor].
  destruct (ToString (Number_toString h) id) as [shown|e]; run_m;
    now repeat constructor.
Qed.

Lemma on_message_events (h : Host) (userEmail : jsstring) (msg : Message) :
  Forall (fun e => handler_event e = true) (fst (on_message h userEmail msg)).
Proof.
  unfold on_message. run_m. rewrite getEmailDataFromAI_eq. run_m.
  destruct (extraction h (shown_text (text msg))) as [d|e]; run_m;
    [|now repeat constructor].
  pose proof (sendMail_events h userEmail d) as Hs.
  destruct (sendMail h userEmail d) as [sending [r|e]]; run_m; cbn [fst] in Hs.
  - destruct (ToString (Number_toString h) (to d)); run_m;
      repeat first [ apply Forall_nil
                   | apply Forall_cons; [reflexivity|]
                   | apply Forall_app; split
                   | exact Hs ].
  - repeat first [ apply Forall_nil
                 | apply Forall_cons; [reflexivity|]
                 | apply Forall_app; split
                 | exact Hs ].
Qed.

Lemma oauth2callback_events (h : Host) (p : Process) (code : value) :
  Forall (fun e => callback_event e = true) (snd (oauth2callback h p code))
  /\ polling (fst (oauth2callback h p code)) = polling p
  /\ serving (fst (oauth2callback h p code)) = serving p.
Proof.
  unfold oauth2callback.
  destruct (negb (ToBoolean code)); [now repeat constructor|].
  destruct (cbind (getToken h code) (fun r => Get r (lit "tokens"))) as [tokens|e];
    [|now repeat constructor].
  destruct (Get tokens (lit "refresh_token")) as [token|e]; [|now repeat constructor].
  destruct (ToBoolean token); now repeat constructor.
Qed.

Lemma filter_none (A : Type) (f : A -> bool) (l : list A) :
  Forall (fun x => f x = false) l -> filter f l = [].
Proof.
  induction 1 as [|x l Hx _ IH]; [reflexivity|]. cbn [filter]. now rewrite Hx.
Qed.

Definition is_exit (e : event) : bool :=
  match e with
  | ProcessExit _ => true
  | _ => false
  end.

Definition authorized : jsstring :=
  lit "Authorization successful! You can now return to the terminal and restart the bot.".

(** *** The handlers in flight *)

(** A segment of the handler of a chat message: effects of that
    handler, the state as it was. *)
Definition message_segment (seg : segment) : Prop :=
  Forall (fun e => handler_event e = true) (fst seg)
  /\ forall p, snd seg p = p.

(** A segment of the handler of the callback: effects of that handler;
    the state keeps what it polls and serves and whether it has exited,
    and a timer is set only with the answer of success. *)
Definition callback_segment (seg : segment) : Prop :=
  Forall (fun e => callback_event e = true) (fst seg)
  /\ (forall p, polling (snd seg p) = polling p
                /\ serving (snd seg p) = serving p
                /\ exited (snd seg p) = exited p)
  /\ ((forall p, exit_timers (snd seg p) = exit_timers p)
      \/ In (HttpSend authorized) (fst seg)).

Definition all_segments (P : segment -> Prop) (tasks : list task) : Prop :=
  Forall (Forall P) tasks.

Lemma message_task_segments (w : Host) (env : Env) (msg : Message) :
  Forall message_segment (message_task w env msg).
Proof.
  unfold message_task.
  pose proof (on_message_events w (userEmail env) msg) as He.
  induction He as [|e t He _ IH]; [constructor|].
  cbn [map]. constructor; [|exact IH]. split; [now repeat constructor|reflexivity].
Qed.

Lemma on_message_begins (w : Host) (userEmail : jsstring) (msg : Message) :
  exists rest, fst (on_message w userEmail msg) = received msg :: rest.
Proof.
  unfold on_message, received. cbn [bind emit].
  match goal with
  | |- context [let (t', r) := ?m in _] => destruct m as [t' r]
  end.
  cbn [fst app]. now exists t'.
Qed.

Lemma message_task_begins (w : Host) (env : Env) (msg : Message) :
  exists rest, message_task w env msg = ([received msg], unchanged) :: rest.
Proof.
  unfold message_task.
  destruct (on_message_begins w (userEmail env) msg) as [rest ->].
  cbn [map]. eexists. reflexivity.
Qed.

(** The handler of the callback sets a timer only with the answer of
    success, whatever the state. *)
Lemma oauth2callback_timers (h : Host) (p : Process) (code : value) :
  In (HttpSend authorized) (snd (oauth2callback h p code))
  \/ forall q, exit_timers (fst (oauth2callback h q code)) = exit_timers q.
Proof.
  unfold oauth2callback.
  destruct (negb (ToBoolean code)); [now right|].
  destruct (cbind (getToken h code) (fun r => Get r (lit "tokens"))) as [tokens|e];
    [|now right].
  destruct (Get tokens (lit "refresh_token")) as [token|e]; [|now right].
  left. cbn [snd]. apply in_or_app. right. apply in_or_app. right. now left.
Qed.

Lemma oauth2callback_alive (h : Host) (p : Process) (code : value) :
  exited (fst (oauth2callback h p code)) = exited p.
Proof.
  unfold oauth2callback.
  destruct (negb (ToBoolean code)); [reflexivity|].
  destruct (cbind (getToken h code) (fun r => Get r (lit "tokens"))) as [tokens|e];
    [|reflexivity].
  destruct (Get tokens (lit "refresh_token")) as [token|e]; reflexivity.
Qed.

Lemma callback_effect (w : Host) (code : value) (p : Process) :
  polling (fst (oauth2callback w p code)) = polling p
  /\ serving (fst (oauth2callback w p code)) = serving p
  /\ exited (fst (oauth2callback w p code)) = exited p.
Proof.
  destruct (oauth2callback_events w p code) as (_ & Hp & Hs).
  repeat split; auto using oauth2callback_alive.
Qed.

Lemma callback_task_segments (w : Host) (p : Process) (code : value) :
  Forall callback_segment (callback_task w p code).
Proof.
  unfold callback_task.
  destruct (oauth2callback_events w p code) as (He & _ & _).
  pose proof (oauth2callback_timers w p code) as Ht.
  destruct (snd (oauth2callback w p code)) as [|e rest].
  - constructor; [|constructor].
    split; [constructor|]. split; [intros q; apply callback_effect|].
    destruct Ht as [[]|Ht]. now left.
  - assert (Hall : callback_segment (e :: rest, fun q => fst (oauth2callback w q code))).
    { split; [exact He|]. split; [intros q; apply callback_effect|].
      destruct Ht as [Ht|Ht]; [now right|now left]. }
    destruct e; try (constructor; [exact Hall|constructor]).
    inversion_clear He as [|? ? _ Hrest].
    constructor; [|constructor; [|constructor]].
    + split; [now repeat constructor|]. split; [now intros q|]. now left.
    + split; [exact Hrest|]. split; [intros q; apply callback_effect|].
      destruct Ht as [[Ht|Ht]|Ht]; [discriminate Ht|now right|now left].
Qed.

Lemma callback_task_begins (w : Host) (p : Process) (code : value) :
  exists tail rest,
    callback_task w p code
    = (if ToBoolean code then [GetToken code] else [HttpSend (lit "No code received.")],
       tail) :: rest
    /\ (ToBoolean code = true -> tail = unchanged).
Proof.
  unfold callback_task, oauth2callback.
  destruct (ToBoolean code); cbn [negb].
  - destruct (cbind (getToken w code) (fun r => Get r (lit "tokens"))) as [tokens|e];
      [|cbn [snd app]; now eexists; eexists].
    destruct (Get tokens (lit "refresh_token")) as [token|e];
      cbn [snd app]; now eexists; eexists.
  - cbn [snd]. eexists. eexists. split; [reflexivity|discriminate].
Qed.

Lemma resume_segments (P : segment -> Prop) (tasks tasks' : list task)
  (k : nat) (seg : segment) :
  all_segments P tasks -> resume tasks k = Some (seg, tasks') ->
  P seg /\ all_segments P tasks'.
Proof.
  unfold all_segments. revert k tasks'.
  induction tasks as [|t others IH]; intros k tasks' Hall H; [discriminate H|].
  inversion_clear Hall as [|? ? Ht Hothers].
  destruct k as [|k].
  - destruct t as [|s rest]; [discriminate H|]. cbn [resume] in H.
    injection H as <- <-. inversion_clear Ht as [|? ? Hs Hrest].
    split; [exact Hs|]. now constructor.
  - assert (H' : match resume others k with
                 | Some (seg0, others') => Some (seg0, t :: others')
                 | None => None
                 end = Some (seg, tasks')) by (destruct t; exact H).
    clear H. destruct (resume others k) as [[seg0 others']|] eqn:E; [|discriminate H'].
    injection H' as <- <-. destruct (IH k others' Hothers E) as [Hs Ho].
    split; [exact Hs|]. now constructor.
Qed.

(** What one input does: nothing; one segment of a handler, which
    starts or goes on; or the end of the process by a timer. *)
Lemma react_cases (P : segment -> Prop) (env : Env) (r : Running) (i : input) :
  all_segments P (snd r) ->
  (forall w msg, polling (fst r) = true -> Forall P (message_task w env msg)) ->
  (forall w code, serving (fst r) = true -> Forall P (callback_task w (fst r) code)) ->
  react env r i = (r, [])
  \/ (exists seg tasks,
        P seg /\ all_segments P tasks /\ exited (fst r) = false
        /\ react env r i = ((snd seg (fst r), tasks), fst seg))
  \/ (exited (fst r) = false /\ exit_timers (fst r) <> 0%nat
      /\ react env r i = ((exit_process (fst r), snd r), [ProcessExit 0])).
Proof.
  intros Hall Hm Hc. unfold react.
  destruct (exited (fst r)) eqn:Hx; [now left|].
  assert (Hstart : forall t, Forall P t ->
            start r t = (r, [])
            \/ exists seg tasks,
                 P seg /\ all_segments P tasks
                 /\ start r t = ((snd seg (fst r), tasks), fst seg)).
  { intros t Ht. destruct t as [|[events effect] rest]; [now left|].
    inversion_clear Ht as [|? ? Hs Hrest].
    right. exists (events, effect), (snd r ++ [rest]). repeat split; [exact Hs|].
    apply Forall_app. split; [exact Hall|now constructor]. }
  destruct i as [w msg|w code| |k].
  - destruct (polling (fst r)) eqn:Hp; [|now left].
    destruct (Hstart _ (Hm w msg eq_refl)) as [H|(seg & tasks & Hs & Ht & H)];
      [now left|].
    right. left. now exists seg, tasks.
  - destruct (serving (fst r)) eqn:Hs; [|now left].
    destruct (Hstart _ (Hc w code eq_refl)) as [H|(seg & tasks & Hp & Ht & H)];
      [now left|].
    right. left. now exists seg, tasks.
  - destruct (exit_timers (fst r)) eqn:Ht; [now left|].
    right. right. repeat split. discriminate.
  - destruct (resume (snd r) k) as [[[events effect] tasks]|] eqn:E; [|now left].
    destruct (resume_segments P _ _ _ _ Hall E) as [Hs Ht].
    right. left. now exists (events, effect), tasks.
Qed.

Lemma run_inputs_app (env : Env) (r : Running) (a b : list input) :
  run env r (a ++ b)
  = (fst (run env (fst (run env r a)) b),
     snd (run env r a) ++ snd (run env (fst (run env r a)) b)).
Proof.
  revert r. induction a as [|i a IH]; intros r.
  - cbn [app run fst snd]. now destruct (run env r b).
  - cbn [app run]. destruct (react env r i) as [r1 t1]. rewrite IH.
    destruct (run env r1 a) as [r2 t2]. cbn [fst snd].
    destruct (run env r2 b) as [r3 t3]. cbn [fst snd]. now rewrite app_assoc.
Qed.

Lemma run_one (env : Env) (r : Running) (i : input) :
  snd (run env r [i]) = snd (react env r i).
Proof.
  cbn [run]. destruct (react env r i) as [r1 t1]. cbn [snd]. apply app_nil_r.
Qed.

(** An invariant of the reactions is an invariant of the runs. *)
Lemma run_invariant (Inv : Running -> Prop) (E : event -> Prop) (env : Env) :
  (forall r i, Inv r ->
               Inv (fst (react env r i)) /\ Forall E (snd (react env r i))) ->
  forall ins r, Inv r ->
                Inv (fst (run env r ins)) /\ Forall E (snd (run env r ins)).
Proof.
  intros Hstep ins. induction ins as [|i ins IH]; intros r Hr; [now split|].
  cbn [run]. destruct (Hstep r i Hr) as [H1 He1].
  destruct (react env r i) as [r1 t1]. cbn [fst snd] in *.
  destruct (IH r1 H1) as [H2 He2].
  destruct (run env r1 ins) as [r2 t2]. cbn [fst snd] in *.
  split; [exact H2|]. now apply Forall_app.
Qed.

(** *** The bot *)

(** The process runs the bot: it polls, serves nothing, has no timer,
    and only handlers of chat messages are in flight. *)
Definition bot_running (r : Running) : Prop :=
  polling (fst r) = true /\ serving (fst r) = false
  /\ exit_timers (fst r) = 0%nat /\ exited (fst r) = false
  /\ all_segments message_segment (snd r).

Lemma react_bot (env : Env) (r : Running) (i : input) :
  bot_running r ->
  bot_running (fst (react env r i))
  /\ Forall (fun e => handler_event e = true) (snd (react env r i)).
Proof.
  intros (Hp & Hs & Ht & Hx & Hall).
  destruct (react_cases message_segment env r i Hall) as
    [->|[(seg & tasks & [He Hid] & Htasks & _ & ->)|(_ & Hn & _)]].
  - intros w msg _. apply message_task_segments.
  - intros w code H. congruence.
  - split; [now repeat split|constructor].
  - cbn [fst snd]. rewrite Hid. split; [now repeat split|exact He].
  - contradiction.
Qed.

Lemma run_bot (env : Env) (ins : list input) (r : Running) :
  bot_running r ->
  bot_running (fst (run env r ins))
  /\ Forall (fun e => handler_event e = true) (snd (run env r ins)).
Proof.
  apply (run_invariant bot_running (fun e => handler_event e = true) env).
  apply react_bot.
Qed.

(** *** The consent flow *)

(** The process serves the callback: it does not poll, and only
    handlers of the callback are in flight. *)
Definition consent_running (r : Running) : Prop :=
  polling (fst r) = false /\ serving (fst r) = true
  /\ all_segments callback_segment (snd r).

Definition consent_or_exit (e : event) : Prop :=
  callback_event e = true \/ e = ProcessExit 0.

(** One step of the consent flow: a handler of the callback starts or
    goes on, and a timer is set only with the answer of success; or a
    timer that was set ends the process. *)
Lemma react_consent (env : Env) (r : Running) (i : input) :
  consent_running r ->
  consent_running (fst (react env r i))
  /\ ((Forall (fun e => callback_event e = true) (snd (react env r i))
       /\ exited (fst (fst (react env r i))) = exited (fst r)
       /\ (In (HttpSend authorized) (snd (react env r i))
           \/ exit_timers (fst (fst (react env r i))) = exit_timers (fst r)))
      \/ (snd (react env r i) = [ProcessExit 0]
          /\ exited (fst (fst (react env r i))) = true
          /\ exit_timers (fst r) <> 0%nat)).
Proof.
  intros (Hp & Hs & Hall).
  destruct (react_cases callback_segment env r i Hall) as
    [->|[(seg & tasks & (He & Hflags & Ht) & Htasks & _ & ->)|(_ & Hn & ->)]].
  - intros w msg H. congruence.
  - intros w code _. apply callback_task_segments.
  - split; [now repeat split|]. left. cbn [fst snd]. repeat split; [constructor|now right].
  - cbn [fst snd]. destruct (Hflags (fst r)) as (H1 & H2 & H3).
    split; [repeat split; cbn [fst snd]; [congruence|congruence|exact Htasks]|].
    left. split; [exact He|]. split; [exact H3|].
    destruct Ht as [Ht|Ht]; [right; apply Ht|now left].
  - cbn [fst snd]. split; [now repeat split|]. right. now repeat split.
Qed.

Lemma callback_not_exit (t : list event) :
  Forall (fun e => callback_event e = true) t ->
  Forall (fun e => is_exit e = false) t.
Proof.
  intros H. eapply Forall_impl; [|exact H].
  intros [] He; try discriminate He; reflexivity.
Qed.

Lemma handler_not_exit (t : list event) :
  Forall (fun e => handler_event e = true) t ->
  Forall (fun e => is_exit e = false) t.
Proof.
  intros H. eapply Forall_impl; [|exact H].
  intros [] He; try discriminate He; reflexivity.
Qed.

Lemma run_consent (env : Env) (ins : list input) (r : Running) :
  consent_running r ->
  consent_running (fst (run env r ins))
  /\ Forall consent_or_exit (snd (run env r ins))
  /\ (filter is_exit (snd (run env r ins)) = [] ->
      exited (fst (fst (run env r ins))) = exited (fst r)).
Proof.
  revert r. induction ins as [|i ins IH]; intros r Hr.
  { cbn [run fst snd]. split; [exact Hr|]. split; [constructor|reflexivity]. }
  cbn [run]. destruct (react_consent env r i Hr) as (H1 & Hstep).
  destruct (react env r i) as [r1 t1]. cbn [fst snd] in *.
  destruct (IH r1 H1) as (H2 & He2 & Hx2).
  destruct (run env r1 ins) as [r2 t2]. cbn [fst snd] in *.
  split; [exact H2|]. split.
  - apply Forall_app. split; [|exact He2].
    destruct Hstep as [(He & _)|(-> & _)].
    + eapply Forall_impl; [|exact He]. intros e H. now left.
    + constructor; [now right|constructor].
  - rewrite filter_app. intros H. apply app_eq_nil in H. destruct H as [Ha Hb].
    rewrite (Hx2 Hb). destruct Hstep as [(_ & Hx & _)|(-> & _)];
      [exact Hx|discriminate Ha].
Qed.

(** *** The start *)

Definition refresh_token_present (env : Env) : bool :=
  ToBoolean (env_value (GMAIL_REFRESH_TOKEN env)).

Definition pipeline_start : list event :=
  [ConsoleLog (check_mark ++ lit " Refresh token available, starting Telegram bot...") None;
   StartPolling;
   ConsoleLog (robot_face ++ lit " Telegram bot started and listening for messages.") None].

Definition consent_start (h : Host) : list event :=
  [GenerateAuthUrl;
   ConsoleLog (lit "Visit this URL to authorize the app:" ++ newline)
     (Some (VString (generateAuthUrl h)));
   Listen PORT;
   ConsoleLog (lit "OAuth server listening on http://localhost:3000") None].

Definition missing_variables : list event :=
  [ConsoleError (cross_mark ++ lit " Please set all required environment variables!") None;
   ProcessExit 1].

Lemma boot_with_token (h : Host) (env : Env) :
  configured env = true -> refresh_token_present env = true ->
  snd (boot h env) = pipeline_start /\ bot_running (fst (boot h env), []).
Proof.
  unfold boot, refresh_token_present. intros -> Hr.
  unfold main, loaded. rewrite Hr. cbn [credentials Get lookup].
  change (jsstring_eqb (lit "refresh_token") (lit "refresh_token")) with true.
  cbv iota. rewrite Hr. repeat split. constructor.
Qed.

Lemma boot_without_token (h : Host) (env : Env) :
  configured env = true -> refresh_token_present env = false ->
  snd (boot h env) = consent_start h
  /\ consent_running (fst (boot h env), [])
  /\ exited (fst (boot h env)) = false
  /\ exit_timers (fst (boot h env)) = 0%nat.
Proof.
  unfold boot, refresh_token_present. intros -> Hr.
  unfold main, loaded. rewrite Hr. repeat split. constructor.
Qed.

Lemma process_trace_app (h : Host) (env : Env) (ins more : list input) :
  process_trace h env (ins ++ more)
  = process_trace h env ins
    ++ snd (run env (fst (run env (fst (boot h env), []) ins)) more).
Proof.
  unfold process_trace. destruct (boot h env) as [p t]. cbn [fst].
  rewrite run_inputs_app. cbn [snd]. now rewrite app_assoc.
Qed.

(** C9 (amended): with the required configuration, the start of the
    process chooses one of two modes by the refresh token.  With a
    token the bot starts: from then on every update of the chat starts
    its handler, and nothing of the consent flow ever happens.  Without
    one the authorization URL is made and printed and the server
    listens: from then on, until the process exits, every request to
    the callback is served, and nothing of the message pipeline ever
    happens.  This holds whatever comes in and however the handlers
    interleave; the authorization URL is made at most once. *)
Theorem startup_mode (h : Host) (env : Env) (ins : list input) :
  configured env = true ->
  (refresh_token_present env = true ->
   snd (boot h env) = pipeline_start
   /\ Forall (fun e => is_consent_event e = false) (process_trace h env ins)
   /\ forall w msg,
        process_trace h env (ins ++ [TelegramUpdate w msg])
        = process_trace h env ins ++ [received msg])
  /\ (refresh_token_present env = false ->
      snd (boot h env) = consent_start h
      /\ Forall (fun e => is_pipeline_event e = false) (process_trace h env ins)
      /\ forall w code,
           filter is_exit (process_trace h env ins) = [] ->
           process_trace h env (ins ++ [HttpGetCallback w code])
           = process_trace h env ins
             ++ (if ToBoolean code then [GetToken code]
                 else [HttpSend (lit "No code received.")]))
  /\ (List.length (filter is_auth_url (process_trace h env ins)) <= 1)%nat.
Proof.
  intros Hc.
  assert (Hwith : refresh_token_present env = true ->
                  snd (boot h env) = pipeline_start
                  /\ Forall (fun e => handler_event e = true)
                       (snd (run env (fst (boot h env), []) ins))
                  /\ bot_running (fst (run env (fst (boot h env), []) ins))).
  { intros Hr. destruct (boot_with_token h env Hc Hr) as [Hb Hbot].
    destruct (run_bot env ins _ Hbot) as [H1 H2].
    split; [exact Hb|]. split; [exact H2|exact H1]. }
  assert (Hwithout : refresh_token_present env = false ->
                     snd (boot h env) = consent_start h
                     /\ Forall consent_or_exit
                          (snd (run env (fst (boot h env), []) ins))
                     /\ consent_running (fst (run env (fst (boot h env), []) ins))
                     /\ (filter is_exit (snd (run env (fst (boot h env), []) ins)) = [] ->
                         exited (fst (fst (run env (fst (boot h env), []) ins))) = false)).
  { intros Hr. destruct (boot_without_token h env Hc Hr) as (Hb & Hcons & Hx & _).
    destruct (run_consent env ins _ Hcons) as (H1 & H2 & H3).
    split; [exact Hb|]. split; [exact H2|]. split; [exact H1|].
    intros H. rewrite (H3 H). exact Hx. }
  split; [|split].
  - intros Hr. destruct (Hwith Hr) as (Hb & He & Hbot).
    split; [exact Hb|]. split.
    + unfold process_trace. destruct (boot h env) as [p t]. cbn [fst snd] in *.
      subst t. apply Forall_app. split; [now repeat constructor|].
      eapply Forall_impl; [|exact He]. intros [] H; try discriminate H; reflexivity.
    + intros w msg. rewrite process_trace_app. f_equal.
      destruct Hbot as (Hp & _ & _ & Hx & _).
      rewrite run_one. unfold react. rewrite Hx, Hp.
      destruct (message_task_begins w env msg) as [rest ->]. reflexivity.
  - intros Hr. destruct (Hwithout Hr) as (Hb & He & Hcons & Hx).
    split; [exact Hb|]. split.
    + unfold process_trace. destruct (boot h env) as [p t]. cbn [fst snd] in *.
      subst t. apply Forall_app. split; [now repeat constructor|].
      eapply Forall_impl; [|exact He].
      intros e [H| ->]; [|reflexivity]. destruct e; try discriminate H; reflexivity.
    + intros w code Hlive. rewrite process_trace_app. f_equal.
      assert (Hlive' : filter is_exit (snd (run env (fst (boot h env), []) ins)) = []).
      { unfold process_trace in Hlive. destruct (boot h env) as [p t].
        rewrite filter_app in Hlive. now apply app_eq_nil in Hlive. }
      destruct Hcons as (_ & Hs & _).
      rewrite run_one. unfold react. rewrite (Hx Hlive'), Hs.
      destruct (callback_task_begins w
                  (fst (fst (run env (fst (boot h env), []) ins))) code)
        as (tail & rest & -> & _).
      reflexivity.
  - destruct (refresh_token_present env) eqn:Hr.
    + destruct (Hwith eq_refl) as (Hb & He & _).
      unfold process_trace. destruct (boot h env) as [p t]. cbn [fst snd] in *.
      subst t. rewrite filter_app. cbn [pipeline_start filter is_auth_url app].
      rewrite filter_none; [simpl; lia|].
      eapply Forall_impl; [|exact He]. intros [] H; try discriminate H; reflexivity.
    + destruct (Hwithout eq_refl) as (Hb & He & _).
      unfold process_trace. destruct (boot h env) as [p t]. cbn [fst snd] in *.
      subst t. rewrite filter_app. cbn [consent_start filter is_auth_url app].
      rewrite filter_none; [simpl; lia|].
      eapply Forall_impl; [|exact He].
      intros e [H| ->]; [|reflexivity]. destruct e; try discriminate H; reflexivity.
Qed.

(** A configuration without refresh token and one with it, a world in
    which every service answers, and a day in the life of the process:
    a chat message, a request to the callback with a code, the handler
    in flight goes on, the timer, one more chat message. *)
Definition first_run : Env :=
  {| TELEGRAM_BOT_TOKEN := Some (lit "123:abc");
     OPENAI_API_KEY := Some (lit "sk-or-1");
     GOOGLE_CLIENT_ID := Some (lit "id.apps.googleusercontent.com");
     GOOGLE_CLIENT_SECRET := Some (lit "secret");
     GOOGLE_REDIRECT_URI := None;
     GMAIL_USER_EMAIL := Some (lit "bot@example.com");
     GMAIL_REFRESH_TOKEN := None |}.

Definition returning : Env :=
  {| TELEGRAM_BOT_TOKEN := Some (lit "123:abc");
     OPENAI_API_KEY := Some (lit "sk-or-1");
     GOOGLE_CLIENT_ID := Some (lit "id.apps.googleusercontent.com");
     GOOGLE_CLIENT_SECRET := Some (lit "secret");
     GOOGLE_REDIRECT_URI := None;
     GMAIL_USER_EMAIL := Some (lit "bot@example.com");
     GMAIL_REFRESH_TOKEN := Some (lit "1//0g") |}.

Definition no_sender : Env :=
  {| TELEGRAM_BOT_TOKEN := Some (lit "123:abc");
     OPENAI_API_KEY := Some (lit "sk-or-1");
     GOOGLE_CLIENT_ID := Some (lit "id.apps.googleusercontent.com");
     GOOGLE_CLIENT_SECRET := Some (lit "secret");
     GOOGLE_REDIRECT_URI := None;
     GMAIL_USER_EMAIL := Some [];
     GMAIL_REFRESH_TOKEN := Some (lit "1//0g") |}.

Definition granting : Host :=
  {| Number_toString := fun _ => lit "0";
     chat_completion := fun _ => Normal (answer bob_object);
     getAccessToken := Normal token_response;
     messages_send := fun _ => Normal sent_response;
     getToken :=
       fun _ => Normal (VObject [(lit "tokens",
                                  VObject [(lit "access_token", VString (lit "ya29.a0"));
                                           (lit "refresh_token", VString (lit "1//0g"))])]);
     generateAuthUrl :=
       lit "https://accounts.google.com/o/oauth2/v2/auth?access_type=offline" |}.

Definition first_day : list input :=
  [TelegramUpdate granting bob_message;
   HttpGetCallback granting (VString (lit "4/0Adeu5B"));
   Resume 0; TimerFired; TelegramUpdate granting bob_message].

Lemma startup_mode_witness :
  (snd (boot granting returning) = pipeline_start
   /\ Forall (fun e => is_consent_event e = false)
        (process_trace granting returning first_day)
   /\ process_trace granting returning (first_day ++ [TelegramUpdate granting bob_message])
      = process_trace granting returning first_day ++ [received bob_message])
  /\ (snd (boot granting first_run) = consent_start granting
      /\ Forall (fun e => is_pipeline_event e = false)
           (process_trace granting first_run first_day)
      /\ process_trace granting first_run [HttpGetCallback granting (VString (lit "4/0Adeu5B"))]
         = process_trace granting first_run [] ++ [GetToken (VString (lit "4/0Adeu5B"))])
  /\ (List.length (filter is_auth_url (process_trace granting first_run first_day))
      <= 1)%nat.
Proof.
  destruct (startup_mode granting returning first_day eq_refl) as (Hbot & _ & _).
  destruct (Hbot eq_refl) as (Hb1 & Hb2 & Hb3).
  destruct (startup_mode granting first_run first_day eq_refl) as (_ & Hconsent & Hurl).
  destruct (Hconsent eq_refl) as (Hc1 & Hc2 & _).
  destruct (startup_mode granting first_run [] eq_refl) as (_ & Hserve & _).
  destruct (Hserve eq_refl) as (_ & _ & Hc3).
  split; [|split].
  - split; [exact Hb1|]. split; [exact Hb2|]. exact (Hb3 granting bob_message).
  - split; [exact Hc1|]. split; [exact Hc2|].
    exact (Hc3 granting (VString (lit "4/0Adeu5B")) eq_refl).
  - exact Hurl.
Defined.

(** C9 (as stated): a refresh token alone does not start the message
    pipeline.  With a refresh token but without the address of the
    sender the script ends before [main]: neither mode is selected. *)
Lemma refresh_token_without_configuration :
  refresh_token_present no_sender = true
  /\ configured no_sender = false
  /\ process_trace granting no_sender first_day = missing_variables
  /\ filter is_pipeline_event (process_trace granting no_sender first_day) = []
  /\ filter is_consent_event (process_trace granting no_sender first_day) = [].
Proof.
  repeat split; vm_compute; reflexivity.
Qed.

End Startup.

(** ** Objects of three plain strings

    The texts [{"email":"e","subject":"s","body":"b"}] whose strings
    need no escape are well formed. *)

Module PlainObjects.

Import App JSON JSONFacts Samples Extractor RegExpFacts.

(** A string that stands for itself between quotes: no quote, no
    backslash, no control character. *)
Definition plain (s : jsstring) : Prop :=
  Forall (fun c => is_dquote c = false /\ chr "\" c = false /\ (c <? 32)%N = false) s.

Lemma run_plain (stack : list frame) (k : bool) (s acc : jsstring) :
  plain s ->
  run (stack, Str k acc) s = Some (stack, Str k (rev s ++ acc)).
Proof.
  intros Hs. revert acc. induction Hs as [|c s (Hq & Hb & Hc) _ IH]; intros acc.
  - reflexivity.
  - cbn [run step]. rewrite Hq, Hb, Hc, IH. cbn [rev].
    now rewrite <- app_assoc.
Qed.

Lemma run_string (stack : list frame) (k : bool) (s : jsstring) :
  plain s ->
  run (stack, Str k []) (s ++ [dquote])
  = match end_string stack k s with
    | Some st => Some st
    | None => None
    end.
Proof.
  intros Hs. rewrite run_app, (run_plain stack k s [] Hs), app_nil_r.
  cbn [run step]. change (is_dquote dquote) with true. cbv iota.
  rewrite rev_involutive. destruct (end_string stack k s); reflexivity.
Qed.

Definition opening : jsstring :=
  lit "{" ++ quoted (lit "email") ++ lit ":" ++ [dquote].

Definition to_subject : jsstring :=
  lit "," ++ quoted (lit "subject") ++ lit ":" ++ [dquote].

Definition to_body : jsstring :=
  lit "," ++ quoted (lit "body") ++ lit ":" ++ [dquote].

Lemma object_text_parts (e s b : jsstring) :
  object_text (quoted e) (quoted s) (quoted b)
  = opening ++ (e ++ [dquote]) ++ to_subject ++ (s ++ [dquote])
    ++ to_body ++ (b ++ [dquote]) ++ lit "}".
Proof.
  unfold object_text, opening, to_subject, to_body, quoted.
  cbn [lit]. repeat (progress cbn [app] || rewrite <- app_assoc). reflexivity.
Qed.

Lemma plain_object_well_formed (e s b : jsstring) :
  plain e -> plain s -> plain b ->
  well_formed_object (object_text (quoted e) (quoted s) (quoted b))
    [(lit "email", VString e); (lit "subject", VString s); (lit "body", VString b)].
Proof.
  intros He Hs Hb. split.
  - exists (quoted (lit "email") ++ lit ":" ++ quoted e
            ++ lit "," ++ quoted (lit "subject") ++ lit ":" ++ quoted s
            ++ lit "," ++ quoted (lit "body") ++ lit ":" ++ quoted b).
    unfold object_text, quoted. cbn [lit].
    repeat (progress cbn [app] || rewrite <- app_assoc). reflexivity.
  - rewrite object_text_parts. unfold parse.
    rewrite run_app.
    change (run initial opening)
      with (Some ([InObject [] (Some (lit "email"))], Str false [])).
    cbv beta iota. rewrite run_app, (run_string _ _ _ He). cbn [end_string complete define_prop].
    rewrite run_app.
    change (run ([InObject [(lit "email", VString e)] None], After) to_subject)
      with (Some ([InObject [(lit "email", VString e)] (Some (lit "subject"))],
                  Str false [])).
    cbv beta iota. rewrite run_app, (run_string _ _ _ Hs). cbn [end_string complete].
    change (define_prop (lit "subject") (VString s) [(lit "email", VString e)])
      with [(lit "email", VString e); (lit "subject", VString s)].
    cbv beta iota. rewrite run_app.
    change (run ([InObject [(lit "email", VString e); (lit "subject", VString s)] None],
                 After) to_body)
      with (Some ([InObject [(lit "email", VString e); (lit "subject", VString s)]
                     (Some (lit "body"))], Str false [])).
    cbv beta iota. rewrite run_app, (run_string _ _ _ Hb). cbn [end_string complete].
    change (define_prop (lit "body") (VString b)
              [(lit "email", VString e); (lit "subject", VString s)])
      with [(lit "email", VString e); (lit "subject", VString s);
            (lit "body", VString b)].
    reflexivity.
Qed.

End PlainObjects.

(** ** Checks on concrete inputs *)

Module Examples.

Import App Samples Dispatcher Bridge.

Definition number_value (mantissa scale : N) (exp_neg : bool) (exp : N) : number :=
  {| num_neg := false; num_mantissa := mantissa; num_scale := scale;
     num_exp_neg := exp_neg; num_exp := exp |}.

Example parse_empty_object : JSON.parse (lit "{}") = Normal (VObject []).
Proof. reflexivity. Qed.

Example parse_nested :
  JSON.parse (lit " [1, 2.5e-3, true, null, {}, []] ")
  = Normal (VArray [VNumber (number_value 1 0 false 0);
                    VNumber (number_value 25 1 true 3);
                    VBool true; VNull; VObject []; VArray []]).
Proof. reflexivity. Qed.

Example parse_repeated_key :
  JSON.parse (lit "{" ++ quoted (lit "a") ++ lit ":1," ++ quoted (lit "b")
              ++ lit ":null," ++ quoted (lit "a") ++ lit ":false}")
  = Normal (VObject [(lit "a", VBool false); (lit "b", VNull)]).
Proof. reflexivity. Qed.

Example parse_escapes :
  JSON.parse (quoted (lit "a\u0041\n\/\u20aC")) = Normal (VString [97; 65; 10; 47; 8364]%N).
Proof. reflexivity. Qed.

Example parse_leading_zero : JSON.parse (lit "01") = Throw SyntaxError.
Proof. reflexivity. Qed.

Example parse_trailing_comma : JSON.parse (lit "[1,]") = Throw SyntaxError.
Proof. reflexivity. Qed.

Example parse_nothing : JSON.parse [] = Throw SyntaxError.
Proof. reflexivity. Qed.

Example parse_two_objects : JSON.parse (lit "{} {}") = Throw SyntaxError.
Proof. reflexivity. Qed.

Example zero_literals :
  number_is_zero (number_value 0 1 false 0) = true
  /\ number_is_zero (number_value 1 0 true 400) = true
  /\ number_is_zero (number_value 5 0 true 324) = false
  /\ number_is_zero (number_value 1 0 false 0) = false.
Proof. repeat split; vm_compute; reflexivity. Qed.

Example braces_first_to_last :
  exec re_braces (lit "a {b} c } d { e") = Some (lit "{b} c }").
Proof. reflexivity. Qed.

Example braces_in_wrong_order : exec re_braces (lit "a } b { c") = None.
Proof. reflexivity. Qed.

Example trim_both_ends : trim (newline ++ lit "  a b " ++ CRLF) = lit "a b".
Proof. reflexivity. Qed.

Example base64_of_Man :
  toString_base64 (from (lit "Man")) = lit "TWFu"
  /\ toString_base64 (from (lit "Ma")) = lit "TWE="
  /\ toString_base64 (from (lit "M")) = lit "TQ==".
Proof. repeat split. Qed.

Example base64url_of_question_marks :
  toString_base64 (from (lit "??>???")) = lit "Pz8+Pz8/"
  /\ encodedMessage (lit "??>???") = lit "Pz8-Pz8_"
  /\ encodedMessage (lit "M") = lit "TQ".
Proof. repeat split. Qed.

Example utf8_of_surrogates :
  from [233; 8364; 55357; 56832; 55357; 65]%N
  = [195; 169; 226; 130; 172; 240; 159; 152; 128; 239; 191; 189; 65]%N.
Proof. reflexivity. Qed.

(** The scenario of the specification: the model answers with Bob's
    object, the provider accepts the message; the message submitted is
    the one of that recipient, subject and body, and the chat is told
    the recipient. *)
Example scenario_bob :
  let world := host bob_object (Normal token_response) (Normal sent_response) in
  snd (getEmailDataFromAI world (text_value (Some request))) = Normal (Some bob_command)
  /\ filter is_dispatch_event (fst (on_message world (lit "bot@example.com") bob_message))
     = [GetAccessToken;
        GmailSend
          (encodedMessage
             (envelope (lit "bot@example.com") (lit "bob@example.com")
                (lit "Meeting update") (lit "The meeting moved to 3pm.")))]
  /\ chat_messages (fst (on_message world (lit "bot@example.com") bob_message))
     = [(42%Z, sent_to (lit "bob@example.com"))].
Proof. repeat split; vm_compute; reflexivity. Qed.

End Examples.

(** ** More on [sendMail] *)

Module SendMailFacts.

Import App ExtractorFacts Samples Dispatcher.
Local Open Scope js_scope.

Definition no_token : error := Error "Failed to get access token".

(** The two halves of the [try] block of [sendMail] as completions: the
    token, and what follows the request to the provider. *)
Definition granted (h : Host) : completion unit :=
  response <~ getAccessToken h ;;
  token <~ Get response (lit "token") ;;
  if negb (ToBoolean token) then Throw no_token else Normal tt.

Definition accepted (h : Host) (raw : jsstring) : completion (value * jsstring) :=
  res <~ messages_send h raw ;;
  data <~ Get res (lit "data") ;;
  id <~ Get data (lit "id") ;;
  shown <~ ToString (Number_toString h) id ;;
  Normal (data, shown).

Definition failed (e : error) : event :=
  ConsoleError (lit "Error sending email:") (Some e).

Definition sent (shown : jsstring) : event :=
  ConsoleLog (lit "Email sent! Message ID: " ++ shown) None.

(** [sendMail], stage by stage. *)
Lemma sendMail_eq (h : Host) (userEmail : jsstring) (d : EmailData) :
  sendMail h userEmail d
  = match granted h with
    | Throw e => ([GetAccessToken; failed e], Throw e)
    | Normal _ =>
        match email_message h userEmail d with
        | Throw e => ([GetAccessToken; failed e], Throw e)
        | Normal email =>
            match accepted h (encodedMessage email) with
            | Throw e =>
                ([GetAccessToken; GmailSend (encodedMessage email); failed e], Throw e)
            | Normal (data, shown) =>
                ([GetAccessToken; GmailSend (encodedMessage email); sent shown],
                 Normal data)
            end
        end
    end.
Proof.
  unfold sendMail, granted, accepted. run_m.
  destruct (getAccessToken h) as [response|e]; run_m; [|reflexivity].
  destruct (Get response (lit "token")) as [token|e]; run_m; [|reflexivity].
  destruct (negb (ToBoolean token)); run_m; [reflexivity|].
  destruct (email_message h userEmail d) as [email|e]; run_m; [|reflexivity].
  destruct (messages_send h (encodedMessage email)) as [res|e]; run_m; [|reflexivity].
  destruct (Get res (lit "data")) as [data|e]; run_m; [|reflexivity].
  destruct (Get data (lit "id")) as [id|e]; run_m; [|reflexivity].
  destruct (ToString (Number_toString h) id) as [shown|e]; run_m; reflexivity.
Qed.

Lemma granted_iff (h : Host) : granted h = Normal tt <-> token_granted h.
Proof.
  unfold granted, token_granted. split.
  - destruct (getAccessToken h) as [response|e]; cbn [cbind]; [|discriminate].
    destruct (Get response (lit "token")) as [token|e] eqn:Et; cbn [cbind]; [|discriminate].
    destruct (ToBoolean token) eqn:Eb; cbn [negb]; [|discriminate].
    intros _. now exists response, token.
  - intros (response & token & -> & Ht & Hb). cbn [cbind]. rewrite Ht. cbn [cbind].
    now rewrite Hb.
Qed.

Definition is_submission (e : event) : bool :=
  match e with
  | GmailSend _ => true
  | _ => false
  end.

Definition is_token_request (e : event) : bool :=
  match e with
  | GetAccessToken => true
  | _ => false
  end.

(** X1: without a token nothing is submitted: when the token request
    throws, or its answer has no token or an empty one, [sendMail]
    throws and its trace has no request to the provider. *)
Theorem sendMail_without_token
  (h : Host) (userEmail : jsstring) (d : EmailData) :
  ~ token_granted h ->
  (exists e, snd (sendMail h userEmail d) = Throw e)
  /\ filter is_submission (fst (sendMail h userEmail d)) = [].
Proof.
  intros Hn. rewrite sendMail_eq.
  destruct (granted h) as [[]|e] eqn:Eg.
  - exfalso. apply Hn. now apply granted_iff.
  - split; [now exists e|reflexivity].
Qed.

Definition empty_token : Host :=
  host bob_object (Normal (VObject [(lit "token", VString [])])) (Normal sent_response).

Lemma sendMail_without_token_witness :
  (exists e, snd (sendMail empty_token (lit "bot@example.com") bob_command) = Throw e)
  /\ filter is_submission (fst (sendMail empty_token (lit "bot@example.com") bob_command))
     = [].
Proof.
  apply (sendMail_without_token empty_token (lit "bot@example.com") bob_command).
  intros (response & token & Hr & Ht & Hb).
  injection Hr as <-. injection Ht as <-. discriminate Hb.
Defined.

(** X2: [sendMail] returns normally exactly when every step succeeds:
    the token is granted, the message can be built, the provider
    accepts it, and the answer has a [data] whose [id] can be shown;
    the result is then that [data]. *)
Theorem sendMail_returns_iff
  (h : Host) (userEmail : jsstring) (d : EmailData) (result : value) :
  snd (sendMail h userEmail d) = Normal result
  <-> (token_granted h
       /\ exists email res id shown,
            email_message h userEmail d = Normal email
            /\ messages_send h (encodedMessage email) = Normal res
            /\ Get res (lit "data") = Normal result
            /\ Get result (lit "id") = Normal id
            /\ ToString (Number_toString h) id = Normal shown).
Proof.
  rewrite sendMail_eq. split.
  - destruct (granted h) as [[]|e] eqn:Eg; [|discriminate].
    apply granted_iff in Eg.
    destruct (email_message h userEmail d) as [email|e] eqn:Ee; [|discriminate].
    unfold accepted.
    destruct (messages_send h (encodedMessage email)) as [res|e] eqn:Er;
      cbn [cbind snd]; [|discriminate].
    destruct (Get res (lit "data")) as [data|e] eqn:Ed; cbn [cbind snd];
      [|discriminate].
    destruct (Get data (lit "id")) as [id|e] eqn:Ei; cbn [cbind snd]; [|discriminate].
    destruct (ToString (Number_toString h) id) as [shown|e] eqn:Es; cbn [cbind snd];
      [|discriminate].
    intros H. injection H as <-. split; [exact Eg|].
    now exists email, res, id, shown.
  - intros [Hg (email & res & id & shown & He & Hs & Hd & Hi & Ht)].
    apply granted_iff in Hg. rewrite Hg, He. unfold accepted.
    rewrite Hs. cbn [cbind]. rewrite Hd. cbn [cbind]. rewrite Hi. cbn [cbind].
    rewrite Ht. reflexivity.
Qed.

(** X3: one call of [sendMail] asks for a token exactly once, first of
    all, and submits at most one message: there is no retry. *)
Theorem sendMail_single_attempt
  (h : Host) (userEmail : jsstring) (d : EmailData) :
  exists rest,
    fst (sendMail h userEmail d) = GetAccessToken :: rest
    /\ filter is_token_request rest = []
    /\ (List.length (filter is_submission rest) <= 1)%nat.
Proof.
  rewrite sendMail_eq.
  destruct (granted h) as [[]|e]; [|eexists; repeat split; simpl; lia].
  destruct (email_message h userEmail d) as [email|e];
    [|eexists; repeat split; simpl; lia].
  destruct (accepted h (encodedMessage email)) as [[data shown]|e];
    eexists; repeat split; simpl; lia.
Qed.

End SendMailFacts.

(** ** More on the message handler *)

Module HandlerFacts.

Import App ExtractorFacts Samples Dispatcher Bridge SendMailFacts.
Local Open Scope js_scope.

(** A message that [sendMail] accepted has a recipient that can be
    shown. *)
Lemma sendMail_normal_recipient
  (h : Host) (userEmail : jsstring) (d : EmailData) (result : value) :
  snd (sendMail h userEmail d) = Normal result ->
  exists recipient, ToString (Number_toString h) (to d) = Normal recipient.
Proof.
  rewrite sendMail_eq.
  destruct (granted h) as [[]|e]; [|discriminate].
  destruct (email_message h userEmail d) as [email|e] eqn:Ee; [|discriminate].
  intros _. destruct (email_message_inv _ _ _ _ Ee) as (r & _ & _ & Hr & _).
  now exists r.
Qed.

(** What the handler says in the chat of the message. *)
Definition reply (h : Host) (userEmail : jsstring) (d : EmailData) : jsstring :=
  match snd (sendMail h userEmail d), ToString (Number_toString h) (to d) with
  | Normal _, Normal recipient => sent_to recipient
  | _, _ => send_failed
  end.

(** The handler, stage by stage. *)
Lemma on_message_eq (h : Host) (userEmail : jsstring) (msg : Message) :
  on_message h userEmail msg
  = (received msg
       :: Fetch (prompt_for (shown_text (text msg)))
       :: match extraction h (shown_text (text msg)) with
          | Throw e =>
              [ConsoleError (lit "AI parse error:") (Some e);
               SendMessage (chat_id msg) extraction_failed]
          | Normal d =>
              fst (sendMail h userEmail d)
              ++ [SendMessage (chat_id msg) (reply h userEmail d)]
          end,
     Normal tt).
Proof.
  unfold on_message, reply. run_m. rewrite getEmailDataFromAI_eq. run_m.
  destruct (extraction h (shown_text (text msg))) as [d|e]; run_m; [|reflexivity].
  destruct (sendMail h userEmail d) as [sending [r|e]]; run_m; [|reflexivity].
  destruct (ToString (Number_toString h) (to d)); run_m;
    rewrite ?app_nil_r; reflexivity.
Qed.

Lemma sendMail_chat (h : Host) (userEmail : jsstring) (d : EmailData) (tail : list event) :
  chat_messages (fst (sendMail h userEmail d) ++ tail) = chat_messages tail.
Proof.
  rewrite chat_messages_app, sendMail_silent. reflexivity.
Qed.

(** X4: every message gets exactly one answer in its chat, and the
    handler never throws: the answer is the text of the extraction
    failure, the text of the send failure, or the confirmation with a
    recipient. *)
Theorem on_message_one_reply (h : Host) (userEmail : jsstring) (msg : Message) :
  snd (on_message h userEmail msg) = Normal tt
  /\ exists answer,
       chat_messages (fst (on_message h userEmail msg)) = [(chat_id msg, answer)]
       /\ (answer = extraction_failed
           \/ answer = send_failed
           \/ exists recipient, answer = sent_to recipient).
Proof.
  rewrite on_message_eq. split; [reflexivity|]. cbn [fst].
  destruct (extraction h (shown_text (text msg))) as [d|e].
  - exists (reply h userEmail d). split.
    + cbn [chat_messages flat_map app]. fold (chat_messages (fst (sendMail h userEmail d)
         ++ [SendMessage (chat_id msg) (reply h userEmail d)])).
      now rewrite sendMail_chat.
    + unfold reply. destruct (snd (sendMail h userEmail d)); [|now auto].
      destruct (ToString (Number_toString h) (to d)) as [r|]; [|now auto].
      right. right. now exists r.
  - exists extraction_failed. split; [reflexivity|now left].
Qed.

(** X5: when the extraction gives a command and [sendMail] returns, the
    handler confirms in the chat with the recipient of the command, as
    a template literal shows it. *)
Theorem send_success_acknowledged
  (h : Host) (userEmail : jsstring) (msg : Message)
  (d : EmailData) (extracting sending : list event) (result : value) :
  getEmailDataFromAI h (text_value (text msg)) = (extracting, Normal (Some d)) ->
  sendMail h userEmail d = (sending, Normal result) ->
  exists recipient,
    ToString (Number_toString h) (to d) = Normal recipient
    /\ on_message h userEmail msg
       = (received msg :: extracting ++ sending
            ++ [SendMessage (chat_id msg) (sent_to recipient)],
          Normal tt).
Proof.
  intros Hx Hs.
  destruct (sendMail_normal_recipient h userEmail d result) as [r Hr];
    [now rewrite Hs|].
  exists r. split; [exact Hr|].
  unfold on_message. run_m. rewrite Hx. run_m. rewrite Hs. run_m. rewrite Hr.
  run_m. rewrite <- ?app_assoc. reflexivity.
Qed.

Definition working : Host :=
  host bob_object (Normal token_response) (Normal sent_response).

Lemma send_success_acknowledged_witness :
  exists recipient,
    ToString (Number_toString working) (to bob_command) = Normal recipient
    /\ on_message working (lit "bot@example.com") bob_message
       = (received bob_message
            :: fst (getEmailDataFromAI working (text_value (text bob_message)))
            ++ fst (sendMail working (lit "bot@example.com") bob_command)
            ++ [SendMessage (chat_id bob_message) (sent_to recipient)],
          Normal tt).
Proof.
  apply (send_success_acknowledged working (lit "bot@example.com") bob_message
           bob_command
           (fst (getEmailDataFromAI working (text_value (text bob_message))))
           (fst (sendMail working (lit "bot@example.com") bob_command))
           (VObject [(lit "id", VString (lit "18c2f0"))])).
  - vm_compute. reflexivity.
  - vm_compute. reflexivity.
Defined.

Definition is_fetch (e : event) : bool :=
  match e with
  | Fetch _ => true
  | _ => false
  end.

Lemma sendMail_fetches (h : Host) (userEmail : jsstring) (d : EmailData) :
  filter is_fetch (fst (sendMail h userEmail d)) = [].
Proof.
  rewrite sendMail_eq.
  destruct (granted h) as [[]|e]; [|reflexivity].
  destruct (email_message h userEmail d) as [email|e]; [|reflexivity].
  destruct (accepted h (encodedMessage email)) as [[data shown]|e]; reflexivity.
Qed.

Lemma sendMail_submits_once (h : Host) (userEmail : jsstring) (d : EmailData) :
  (List.length (filter is_submission (fst (sendMail h userEmail d))) <= 1)%nat.
Proof.
  rewrite sendMail_eq.
  destruct (granted h) as [[]|e]; [|simpl; lia].
  destruct (email_message h userEmail d) as [email|e]; [|simpl; lia].
  destruct (accepted h (encodedMessage email)) as [[data shown]|e]; simpl; lia.
Qed.

(** X6: one message causes exactly one request to the model, whose
    prompt holds the text of the message, and at most one request to
    the mail provider. *)
Theorem on_message_single_requests (h : Host) (userEmail : jsstring) (msg : Message) :
  filter is_fetch (fst (on_message h userEmail msg))
  = [Fetch (prompt_for (shown_text (text msg)))]
  /\ (List.length (filter is_submission (fst (on_message h userEmail msg))) <= 1)%nat.
Proof.
  rewrite on_message_eq. cbn [fst].
  destruct (extraction h (shown_text (text msg))) as [d|e];
    [|split; [reflexivity|simpl; lia]].
  cbn [filter received is_fetch is_submission]. rewrite !filter_app, sendMail_fetches.
  split; [reflexivity|]. cbn [filter is_submission app]. rewrite app_nil_r.
  apply sendMail_submits_once.
Qed.

Lemma sendMail_normal_submitted
  (h : Host) (userEmail : jsstring) (d : EmailData) (result : value) :
  snd (sendMail h userEmail d) = Normal result ->
  exists raw, In (GmailSend raw) (fst (sendMail h userEmail d)).
Proof.
  rewrite sendMail_eq.
  destruct (granted h) as [[]|e]; [|discriminate].
  destruct (email_message h userEmail d) as [email|e]; [|discriminate].
  destruct (accepted h (encodedMessage email)) as [[data shown]|e]; [|discriminate].
  intros _. exists (encodedMessage email). right. now left.
Qed.

Lemma sendMail_no_chat (h : Host) (userEmail : jsstring) (d : EmailData)
  (c : Z) (s : jsstring) :
  ~ In (SendMessage c s) (fst (sendMail h userEmail d)).
Proof.
  rewrite sendMail_eq.
  destruct (granted h) as [[]|e];
    [|intros [H|[H|[]]]; discriminate].
  destruct (email_message h userEmail d) as [email|e];
    [|intros [H|[H|[]]]; discriminate].
  destruct (accepted h (encodedMessage email)) as [[data shown]|e];
    intros [H|[H|[H|[]]]]; discriminate.
Qed.

(** X7: the handler never confirms a mail that was not submitted: when
    a confirmation is sent to a chat, it is the chat of the message and
    the trace has a request to the mail provider. *)
Theorem confirmation_means_submitted
  (h : Host) (userEmail : jsstring) (msg : Message) (c : Z) (recipient : jsstring) :
  In (SendMessage c (sent_to recipient)) (fst (on_message h userEmail msg)) ->
  c = chat_id msg
  /\ exists raw, In (GmailSend raw) (fst (on_message h userEmail msg)).
Proof.
  rewrite on_message_eq. cbn [fst].
  intros [H|[H|H]]; [discriminate H|discriminate H|].
  destruct (extraction h (shown_text (text msg))) as [d|e].
  - apply in_app_or in H. destruct H as [H|[H|[]]].
    + now apply sendMail_no_chat in H.
    + injection H as -> Hr. split; [reflexivity|].
      unfold reply in Hr.
      destruct (snd (sendMail h userEmail d)) as [result|e] eqn:Es;
        [|discriminate Hr].
      destruct (sendMail_normal_submitted h userEmail d result Es) as [raw Hin].
      exists raw. right. right. apply in_or_app. now left.
  - destruct H as [H|[H|[]]]; discriminate H.
Qed.

Lemma confirmation_means_submitted_witness :
  42%Z = chat_id bob_message
  /\ exists raw,
       In (GmailSend raw) (fst (on_message working (lit "bot@example.com") bob_message)).
Proof.
  apply (confirmation_means_submitted working (lit "bot@example.com") bob_message
           42%Z (lit "bob@example.com")).
  vm_compute. tauto.
Defined.

End HandlerFacts.

(** ** A text that begins with a brace denotes an object *)

Module ObjectFacts.

Import JSON JSONFacts RegExpFacts.

(** The outermost open container is an object. *)
Fixpoint rooted (stack : list frame) : bool :=
  match stack with
  | [] => false
  | [InObject _ _] => true
  | [InArray _] => false
  | _ :: below => rooted below
  end.

(** The automaton is inside an outermost object, or has just read
    one. *)
Definition in_object (st : state) : Prop :=
  rooted (fst st) = true \/ exists props, st = ([], Done (VObject props)).

Lemma rooted_push (f : frame) (stack : list frame) :
  rooted stack = true -> rooted (f :: stack) = true.
Proof.
  destruct stack as [|g below]; [discriminate|]. intros H. destruct f; exact H.
Qed.

Lemma rooted_top (f g : frame) (below : list frame) :
  (match f, g with
   | InArray _, InArray _ | InObject _ _, InObject _ _ => True
   | _, _ => False
   end) ->
  rooted (f :: below) = true -> rooted (g :: below) = true.
Proof.
  destruct f, g, below; simpl; tauto.
Qed.

Lemma complete_rooted (stack : list frame) (v : value) (st : state) :
  rooted stack = true -> complete stack v = Some st -> rooted (fst st) = true.
Proof.
  destruct stack as [|[elems|props [k|]] below]; cbn [complete]; intros Hr H;
    try discriminate; injection H as <-; cbn [fst];
    (eapply rooted_top; [|exact Hr]); exact I.
Qed.

(** Closing the container on top of a rooted stack. *)
Lemma complete_closed (top : frame) (below : list frame) (v : value) (st : state) :
  rooted (top :: below) = true ->
  (below = [] -> exists props, v = VObject props) ->
  complete below v = Some st -> in_object st.
Proof.
  intros Hr Hv H. destruct below as [|g below].
  - destruct (Hv eq_refl) as [props ->]. injection H as <-. right. now exists props.
  - left. apply (complete_rooted (g :: below) v); [|exact H].
    destruct top; exact Hr.
Qed.

Lemma step_after_in_object (stack : list frame) (m : mode) (c : code_unit) (st : state) :
  in_object (stack, m) -> step_after stack m c = Some st -> in_object st.
Proof.
  intros Hin. unfold step_after. destruct m; try discriminate.
  - destruct (is_ws c); [intros H; now injection H as <-|].
    destruct Hin as [Hr|[props Hp]]; [|discriminate Hp]. cbn [fst] in Hr.
    destruct (chr "," c).
    { destruct stack as [|[elems|props [k|]] below]; intros H; try discriminate H;
        injection H as <-; now left. }
    destruct (chr "]" c).
    { destruct stack as [|[elems|props k] below]; intros H; try discriminate H.
      apply (complete_closed (InArray elems) below (VArray (rev elems)) st Hr);
        [|exact H].
      intros ->. discriminate Hr. }
    destruct (chr "}" c); [|discriminate].
    destruct stack as [|[elems|props [k|]] below]; intros H; try discriminate H.
    apply (complete_closed (InObject props None) below (VObject props) st Hr);
      [|exact H].
    intros _. now exists props.
  - destruct (is_ws c); [|discriminate]. intros H. now injection H as <-.
Qed.

Lemma step_in_object (st st' : state) (c : code_unit) :
  in_object st -> step st c = Some st' -> in_object st'.
Proof.
  destruct st as [stack m]. intros Hin.
  destruct m; try (apply step_after_in_object; exact Hin);
    destruct Hin as [Hr|[props Hp]]; try discriminate Hp; cbn [fst] in Hr;
    cbn [step].
  - (* Value *)
    destruct (is_ws c); [intros H; injection H as <-; now left|].
    unfold start_value.
    repeat match goal with
           | |- context [if ?b then _ else _] => destruct b
           end; intros H; try discriminate H; injection H as <-; left; cbn [fst];
      auto using rooted_push.
  - (* ArrayStart *)
    destruct (is_ws c); [intros H; injection H as <-; now left|].
    destruct (chr "]" c).
    { destruct stack as [|[elems|props k] below]; intros H; try discriminate H.
      apply (complete_closed (InArray elems) below (VArray []) st' Hr); [|exact H].
      intros ->. discriminate Hr. }
    unfold start_value.
    repeat match goal with
           | |- context [if ?b then _ else _] => destruct b
           end; intros H; try discriminate H; injection H as <-; left; cbn [fst];
      auto using rooted_push.
  - (* ObjectStart *)
    destruct (is_ws c); [intros H; injection H as <-; now left|].
    destruct (chr "}" c).
    { destruct stack as [|[elems|props [k|]] below]; intros H; try discriminate H.
      apply (complete_closed (InObject props None) below (VObject []) st' Hr);
        [|exact H].
      intros _. now exists []. }
    destruct (is_dquote c); intros H; [|discriminate H]. injection H as <-. now left.
  - (* Key *)
    destruct (is_ws c); [intros H; injection H as <-; now left|].
    destruct (is_dquote c); intros H; [|discriminate H]. injection H as <-. now left.
  - (* Colon *)
    destruct (is_ws c); [intros H; injection H as <-; now left|].
    destruct (chr ":" c); intros H; [|discriminate H]. injection H as <-. now left.
  - (* Str *)
    destruct (is_dquote c).
    { unfold end_string. destruct is_key.
      - destruct stack as [|[elems|props [k|]] below]; intros H; try discriminate H.
        injection H as <-. left. cbn [fst].
        eapply rooted_top; [|exact Hr]. exact I.
      - intros H. left. now apply (complete_rooted stack (VString (rev acc_rev))). }
    destruct (chr "\" c); [intros H; injection H as <-; now left|].
    destruct (c <? 32)%N; intros H; [discriminate H|]. injection H as <-. now left.
  - (* Esc *)
    destruct (chr "u" c); [intros H; injection H as <-; now left|].
    destruct (escape c); intros H; [|discriminate H]. injection H as <-. now left.
  - (* Hex *)
    destruct (hex_val c) as [x|]; [|discriminate].
    destruct remaining as [|[|r]]; intros H; try discriminate H;
      injection H as <-; now left.
  - (* Num *)
    destruct (num_step st n c) as [[ns' n']|].
    { intros H. injection H as <-. now left. }
    destruct (accepting st); [|discriminate].
    destruct (complete stack (VNumber n)) as [[stack' m']|] eqn:Ec; [|discriminate].
    apply step_after_in_object. left.
    now apply (complete_rooted stack (VNumber n)).
  - (* Word *)
    destruct rest as [|x rest']; [discriminate|].
    destruct (c =? x)%N; [|discriminate].
    destruct rest'.
    + intros H. left. now apply (complete_rooted stack v).
    + intros H. injection H as <-. now left.
Qed.

Lemma run_in_object (s : jsstring) (st st' : state) :
  in_object st -> run st s = Some st' -> in_object st'.
Proof.
  revert st. induction s as [|c s IH]; intros st Hin H.
  - now injection H as <-.
  - cbn [run] in H. destruct (step st c) as [st1|] eqn:E; [|discriminate].
    apply (IH st1); [|exact H]. now apply (step_in_object st st1 c).
Qed.

(** A text whose first code unit is an opening brace is JSON only if it
    is the text of an object. *)
Lemma parse_brace_object (rest : jsstring) (v : value) :
  parse (lbrace :: rest) = Normal v -> exists props, v = VObject props.
Proof.
  unfold parse. cbn [run].
  change (step initial lbrace) with (Some ([InObject [] None], ObjectStart)).
  destruct (run ([InObject [] None], ObjectStart) rest) as [st|] eqn:E; [|discriminate].
  assert (Hin : in_object st).
  { apply (run_in_object rest ([InObject [] None], ObjectStart)); [now left|exact E]. }
  destruct Hin as [Hr|[props ->]].
  - destruct st as [[|f stack] m]; [discriminate Hr|]. discriminate.
  - intros H. injection H as <-. now exists props.
Qed.

End ObjectFacts.

(** ** More on the extractor *)

Module ExtractorMore.

Import App RegExpFacts ExtractorFacts JSONFacts Samples Extractor ObjectFacts.
Local Open Scope js_scope.

(** X8: the text that [/\{.*\}/s] finds, when [JSON.parse] accepts it,
    is always an object: never an array, a string, a number, a boolean
    or [null]. *)
Theorem matched_text_is_object (content matched : jsstring) (parsed : value) :
  exec re_braces content = Some matched ->
  JSON.parse matched = Normal parsed ->
  exists props, parsed = VObject props.
Proof.
  intros Hm Hp.
  destruct (exec_braces_inv _ _ Hm) as (pre & mid & post & _ & -> & _).
  exact (parse_brace_object _ _ Hp).
Qed.

Lemma matched_text_is_object_witness :
  exists props, VObject bob_props = VObject props.
Proof.
  apply (matched_text_is_object (lit "Sure: " ++ bob_object ++ lit " ok") bob_object
           (VObject bob_props)); vm_compute; reflexivity.
Defined.

(** X9: the values are taken as they are, whatever their type: when
    the text found is the text of an object whose keys email, subject
    and body have truthy values (strings, numbers, [true], arrays or
    objects), [getEmailDataFromAI] returns the command of these
    values. *)
Theorem extract_accepts_truthy_values
  (h : Host) (t : option jsstring) (data : value) (content matched : jsstring)
  (parsed : value) :
  chat_completion h (prompt_for (shown_text t)) = Normal data ->
  message_text data = Normal (VString content) ->
  exec re_braces content = Some matched ->
  JSON.parse matched = Normal parsed ->
  ToBoolean (property parsed (lit "email")) = true ->
  ToBoolean (property parsed (lit "subject")) = true ->
  ToBoolean (property parsed (lit "body")) = true ->
  snd (getEmailDataFromAI h (text_value t))
  = Normal (Some {| to := property parsed (lit "email");
                    subject := property parsed (lit "subject");
                    body := property parsed (lit "body") |}).
Proof.
  intros Hd Ht Hm Hp He Hs Hb.
  rewrite getEmailDataFromAI_eq. cbn [snd]. unfold extraction.
  rewrite Hd. cbn [cbind]. rewrite Ht. cbn [cbind]. unfold parsed_text.
  destruct content as [|c content]; [discriminate Hm|].
  cbn [ToBoolean negb call_match cbind]. rewrite Hm, Hp. cbn [cbind].
  destruct (checked_fields_cases parsed) as [[-> _]|[_ Hbad]]; [reflexivity|].
  unfold falsy_field in Hbad. destruct Hbad as [H|[H|H]]; congruence.
Qed.

Definition mixed_object : jsstring :=
  object_text (lit "[" ++ quoted (lit "a@b.c") ++ lit "]") (lit "{}") (lit "true").

Lemma extract_accepts_truthy_values_witness :
  snd (getEmailDataFromAI
         (host mixed_object (Normal token_response) (Normal sent_response))
         (text_value (Some request)))
  = Normal (Some {| to := VArray [VString (lit "a@b.c")];
                    subject := VObject [];
                    body := VBool true |}).
Proof.
  apply (extract_accepts_truthy_values
           (host mixed_object (Normal token_response) (Normal sent_response))
           (Some request) (answer mixed_object) mixed_object mixed_object
           (VObject [(lit "email", VArray [VString (lit "a@b.c")]);
                     (lit "subject", VObject []);
                     (lit "body", VBool true)]));
    vm_compute; reflexivity.
Defined.

(** X10: [getEmailDataFromAI] calls the model exactly once, with the
    prompt of the message; it logs nothing when it returns a command
    and exactly one error when it returns [null]. *)
Theorem extract_logs_failures (h : Host) (t : option jsstring) :
  exists log,
    fst (getEmailDataFromAI h (text_value t))
    = Fetch (prompt_for (shown_text t)) :: log
    /\ ((exists d, snd (getEmailDataFromAI h (text_value t)) = Normal (Some d))
        /\ log = []
        \/ snd (getEmailDataFromAI h (text_value t)) = Normal None
           /\ exists e, log = [ConsoleError (lit "AI parse error:") (Some e)]).
Proof.
  rewrite getEmailDataFromAI_eq. cbn [fst snd].
  destruct (extraction h (shown_text t)) as [d|e]; eexists; (split; [reflexivity|]).
  - left. split; [now exists d|reflexivity].
  - right. split; [reflexivity|now exists e].
Qed.

Lemma message_text_throws (data : value) (e : error) :
  message_text data = Throw e -> e = TypeError.
Proof.
  unfold message_text, optional, call_trim, cbind, Get, Get0.
  repeat match goal with
         | |- context [match ?x with _ => _ end] => is_var x; destruct x
         | |- context [lookup ?k ?p] => destruct (lookup k p)
         end;
    intros H; try discriminate; now injection H as <-.
Qed.

Lemma parse_throws (s : jsstring) (e : error) :
  JSON.parse s = Throw e -> e = SyntaxError.
Proof.
  unfold JSON.parse. destruct (JSON.run JSON.initial s) as [st|].
  - destruct (JSON.finish st); [discriminate|]. intros H. now injection H as <-.
  - intros H. now injection H as <-.
Qed.

Lemma checked_fields_object_throws (props : list (jsstring * value)) (e : error) :
  checked_fields (VObject props) = Throw e -> e = missing_fields.
Proof.
  unfold checked_fields. cbn [Get cbind].
  repeat match goal with
         | |- context [if ?b then _ else _] => destruct b
         end; intros H; try discriminate; now injection H as <-.
Qed.

(** X11: the error that [getEmailDataFromAI] logs is the error of the
    completion call, the [TypeError] of a response whose shape the
    chain of accesses cannot read, one of the three errors the function
    throws itself, or the [SyntaxError] of [JSON.parse]; the checks of
    the fields of a parsed text never raise a [TypeError]. *)
Theorem extract_error_taxonomy (h : Host) (t : option jsstring) (e : error) :
  In (ConsoleError (lit "AI parse error:") (Some e))
     (fst (getEmailDataFromAI h (text_value t))) ->
  chat_completion h (prompt_for (shown_text t)) = Throw e
  \/ (e = TypeError
      /\ exists data,
           chat_completion h (prompt_for (shown_text t)) = Normal data
           /\ message_text data = Throw TypeError)
  \/ e = Error "No response from model"
  \/ e = Error "No JSON found in output"
  \/ e = SyntaxError
  \/ e = Error "Missing required fields in AI output".
Proof.
  rewrite getEmailDataFromAI_eq. cbn [fst].
  intros [H|H]; [discriminate H|].
  destruct (extraction h (shown_text t)) as [d|e'] eqn:Ex; [destruct H|].
  destruct H as [H|[]]. injection H as ->.
  unfold extraction in Ex.
  destruct (chat_completion h (prompt_for (shown_text t))) as [data|e0];
    cbn [cbind] in Ex; [|left; congruence].
  right.
  destruct (message_text data) as [v|e1] eqn:Et; cbn [cbind] in Ex.
  2:{ left. injection Ex as <-. pose proof (message_text_throws _ _ Et) as ->.
      split; [reflexivity|now exists data]. }
  right. unfold parsed_text in Ex.
  destruct (negb (ToBoolean v)) eqn:Eb; [left; congruence|]. right.
  destruct (message_text_cases _ _ Et) as [->|[content ->]]; [discriminate Eb|].
  cbn [call_match cbind] in Ex.
  destruct (exec re_braces content) as [matched|] eqn:Em; [|left; congruence].
  right.
  destruct (JSON.parse matched) as [parsed|e2] eqn:Ep; cbn [cbind] in Ex.
  - right.
    destruct (exec_braces_inv _ _ Em) as (pre & mid & post & _ & -> & _).
    destruct (parse_brace_object _ _ Ep) as [props ->].
    exact (checked_fields_object_throws _ _ Ex).
  - left. injection Ex as <-. exact (parse_throws _ _ Ep).
Qed.

Definition no_choices : Host :=
  {| Number_toString := fun _ => lit "0";
     chat_completion :=
       fun _ => Normal (VObject [(lit "error",
                                  VObject [(lit "message", VString (lit "rate limited"))])]);
     getAccessToken := Normal token_response;
     messages_send := fun _ => Normal sent_response;
     getToken := fun _ => Throw (HostError 0);
     generateAuthUrl := lit "https://accounts.google.com/o/oauth2/v2/auth?access_type=offline" |}.

Lemma extract_error_taxonomy_witness :
  chat_completion no_choices (prompt_for (shown_text (Some request)))
  = Throw (Error "No response from model")
  \/ (Error "No response from model" = TypeError
      /\ exists data,
           chat_completion no_choices (prompt_for (shown_text (Some request))) = Normal data
           /\ message_text data = Throw TypeError)
  \/ Error "No response from model" = Error "No response from model"
  \/ Error "No response from model" = Error "No JSON found in output"
  \/ Error "No response from model" = SyntaxError
  \/ Error "No response from model" = Error "Missing required fields in AI output".
Proof.
  apply (extract_error_taxonomy no_choices (Some request)
           (Error "No response from model")).
  vm_compute. tauto.
Defined.

End ExtractorMore.

(** ** More on the process *)

Module ProcessFacts.

Import App ExtractorFacts Samples Dispatcher Bridge Startup SendMailFacts HandlerFacts.
Local Open Scope js_scope.

(** A process that has exited does nothing. *)
Lemma run_exited (env : Env) (ins : list input) (r : Running) :
  exited (fst r) = true -> run env r ins = (r, []).
Proof.
  intros Hr. induction ins as [|i ins IH]; [reflexivity|].
  cbn [run]. unfold react. rewrite Hr, IH. reflexivity.
Qed.

Lemma unconfigured_trace (h : Host) (env : Env) (ins : list input) :
  configured env = false -> process_trace h env ins = missing_variables.
Proof.
  intros Hc. unfold process_trace, boot. rewrite Hc.
  rewrite run_exited by reflexivity. reflexivity.
Qed.

Definition required (env : Env) : list (option jsstring) :=
  [TELEGRAM_BOT_TOKEN env; OPENAI_API_KEY env; GOOGLE_CLIENT_ID env;
   GOOGLE_CLIENT_SECRET env; GMAIL_USER_EMAIL env].

Lemma configured_required (env : Env) (v : option jsstring) :
  In v (required env) -> v = None \/ v = Some [] -> configured env = false.
Proof.
  unfold required, configured. intros Hin Hv.
  assert (Hf : ToBoolean (env_value v) = false) by (destruct Hv as [->| ->]; reflexivity).
  destruct Hin as [<-|[<-|[<-|[<-|[<-|[]]]]]]; rewrite Hf;
    rewrite ?andb_false_r; reflexivity.
Qed.

(** X12: when one of the five required variables is not set or is
    empty, the process logs one error and exits with code 1: nothing
    starts, and nothing that comes in later has any effect. *)
Theorem missing_configuration_exits
  (h : Host) (env : Env) (ins : list input) (v : option jsstring) :
  In v (required env) -> v = None \/ v = Some [] ->
  process_trace h env ins = missing_variables.
Proof.
  intros Hin Hv. apply unconfigured_trace.
  exact (configured_required env v Hin Hv).
Qed.

Lemma missing_configuration_exits_witness :
  process_trace working no_sender first_day = missing_variables.
Proof.
  apply (missing_configuration_exits working no_sender first_day (Some [])).
  - right. right. right. right. left. reflexivity.
  - right. reflexivity.
Defined.

(** With the configuration and a refresh token, the process prints the
    start of the bot and then does only what handlers of chat messages
    do. *)
Lemma bot_trace (h : Host) (env : Env) (ins : list input) :
  configured env = true -> refresh_token_present env = true ->
  process_trace h env ins
  = pipeline_start ++ snd (run env (fst (boot h env), []) ins)
  /\ bot_running (fst (boot h env), [])
  /\ Forall (fun e => handler_event e = true)
       (snd (run env (fst (boot h env), []) ins)).
Proof.
  intros Hc Hr. destruct (boot_with_token h env Hc Hr) as [Hb Hbot].
  destruct (run_bot env ins _ Hbot) as [_ He].
  unfold process_trace. destruct (boot h env) as [p t]. cbn [fst snd] in *.
  subst t. split; [reflexivity|]. split; [exact Hbot|exact He].
Qed.

Lemma bot_no_exit (h : Host) (env : Env) (ins : list input) :
  configured env = true -> refresh_token_present env = true ->
  Forall (fun e => is_exit e = false) (process_trace h env ins).
Proof.
  intros Hc Hr. destruct (bot_trace h env ins Hc Hr) as (-> & _ & He).
  apply Forall_app. split; [now repeat constructor|].
  now apply handler_not_exit.
Qed.

(** *** The answers in the chat *)

Lemma on_message_chat (h : Host) (userEmail : jsstring) (msg : Message) :
  map fst (chat_messages (fst (on_message h userEmail msg))) = [chat_id msg].
Proof.
  rewrite on_message_eq. cbn [fst].
  destruct (extraction h (shown_text (text msg))) as [d|e]; [|reflexivity].
  cbn [chat_messages flat_map app].
  fold (chat_messages (fst (sendMail h userEmail d)
                       ++ [SendMessage (chat_id msg) (reply h userEmail d)])).
  now rewrite sendMail_chat.
Qed.

(** The chats of the updates among the inputs, in order. *)
Definition updated_chats (ins : list input) : list Z :=
  flat_map (fun i =>
              match i with
              | TelegramUpdate _ msg => [chat_id msg]
              | _ => []
              end) ins.

(** How many messages a trace sends to the chat [c], and how many
    updates come from it. *)
Definition answers_to (c : Z) (t : list event) : nat :=
  count_occ Z.eq_dec (map fst (chat_messages t)) c.

Definition updates_from (c : Z) (ins : list input) : nat :=
  count_occ Z.eq_dec (updated_chats ins) c.

(** What the handlers in flight have still to do. *)
Definition in_flight (tasks : list task) : list event :=
  flat_map (fun t => flat_map fst t) tasks.

Definition pending (h : Host) (env : Env) (ins : list input) : list event :=
  in_flight (snd (fst (run env (fst (boot h env), []) ins))).

Lemma answers_to_app (c : Z) (a b : list event) :
  answers_to c (a ++ b) = (answers_to c a + answers_to c b)%nat.
Proof.
  unfold answers_to. now rewrite chat_messages_app, map_app, count_occ_app.
Qed.

Lemma updates_from_cons (c : Z) (i : input) (ins : list input) :
  updates_from c (i :: ins) = (updates_from c [i] + updates_from c ins)%nat.
Proof.
  unfold updates_from. change (i :: ins) with ([i] ++ ins).
  unfold updated_chats. now rewrite flat_map_app, count_occ_app.
Qed.

Lemma in_flight_app (a b : list task) :
  in_flight (a ++ b) = in_flight a ++ in_flight b.
Proof.
  apply flat_map_app.
Qed.

Lemma message_task_flight (w : Host) (env : Env) (msg : Message) :
  flat_map fst (message_task w env msg) = fst (on_message w (userEmail env) msg).
Proof.
  unfold message_task.
  induction (fst (on_message w (userEmail env) msg)) as [|e t IH]; [reflexivity|].
  cbn [map flat_map fst app]. now rewrite IH.
Qed.

Lemma resume_flight (c : Z) (tasks tasks' : list task) (k : nat) (seg : segment) :
  resume tasks k = Some (seg, tasks') ->
  answers_to c (in_flight tasks)
  = (answers_to c (fst seg) + answers_to c (in_flight tasks'))%nat.
Proof.
  revert k tasks'. induction tasks as [|t others IH]; intros k tasks' H;
    [discriminate H|].
  destruct k as [|k].
  - destruct t as [|s rest]; [discriminate H|]. cbn [resume] in H.
    injection H as <- <-. unfold in_flight. cbn [flat_map].
    rewrite <- app_assoc. apply answers_to_app.
  - assert (H' : match resume others k with
                 | Some (seg0, others') => Some (seg0, t :: others')
                 | None => None
                 end = Some (seg, tasks')) by (destruct t; exact H).
    clear H. destruct (resume others k) as [[seg0 others']|] eqn:E; [|discriminate H'].
    injection H' as <- <-. specialize (IH k others' E).
    unfold in_flight in *. cbn [flat_map]. rewrite !answers_to_app. lia.
Qed.

(** One step of the bot: the answers sent and the answers owed grow
    together by one for the chat of an update, and by nothing
    otherwise. *)
Lemma react_answers (env : Env) (r : Running) (i : input) (c : Z) :
  bot_running r ->
  (answers_to c (snd (react env r i))
   + answers_to c (in_flight (snd (fst (react env r i)))))%nat
  = (answers_to c (in_flight (snd r)) + updates_from c [i])%nat.
Proof.
  intros (Hp & Hs & Ht & Hx & _). unfold react. rewrite Hx.
  destruct i as [w msg|w code| |k]; rewrite ?Hp, ?Hs, ?Ht; cbn [fst snd];
    try (unfold updates_from; cbn; lia).
  - pose proof (message_task_flight w env msg) as Hf.
    pose proof (on_message_chat w (userEmail env) msg) as Hc.
    rewrite <- Hf in Hc.
    assert (Hone : answers_to c (flat_map fst (message_task w env msg))
                   = updates_from c [TelegramUpdate w msg]).
    { unfold answers_to, updates_from. rewrite Hc. reflexivity. }
    rewrite <- Hone.
    destruct (message_task w env msg) as [|[events effect] rest]; cbn [start fst snd].
    + cbn. lia.
    + rewrite in_flight_app. unfold in_flight at 2. cbn [flat_map fst].
      rewrite app_nil_r, !answers_to_app. lia.
  - destruct (resume (snd r) k) as [[[events effect] tasks]|] eqn:E; cbn [fst snd].
    + rewrite (resume_flight c _ _ _ _ E). cbn [fst]. unfold updates_from. cbn. lia.
    + unfold updates_from. cbn. lia.
Qed.

Lemma run_answers (env : Env) (ins : list input) (r : Running) (c : Z) :
  bot_running r ->
  (answers_to c (snd (run env r ins))
   + answers_to c (in_flight (snd (fst (run env r ins)))))%nat
  = (answers_to c (in_flight (snd r)) + updates_from c ins)%nat.
Proof.
  revert r. induction ins as [|i ins IH]; intros r Hr.
  - cbn [run fst snd]. unfold updates_from. cbn. lia.
  - cbn [run]. pose proof (react_answers env r i c Hr) as H1.
    destruct (react_bot env r i Hr) as [Hr1 _].
    destruct (react env r i) as [r1 t1]. cbn [fst snd] in *.
    specialize (IH r1 Hr1).
    destruct (run env r1 ins) as [r2 t2]. cbn [fst snd] in *.
    rewrite answers_to_app, (updates_from_cons c i ins). lia.
Qed.

(** X13: with the configuration and a refresh token, whatever comes in
    and however the handlers interleave, every update of the chat is
    answered exactly once, in its own chat, when its handler has come
    to its end, and nothing else is said: for every chat, the answers
    sent to it and the answers that the handlers in flight have still
    to send are together as many as the updates that came from it. *)
Theorem bot_answers_every_update
  (h : Host) (env : Env) (ins : list input) (c : Z) :
  configured env = true -> refresh_token_present env = true ->
  (answers_to c (process_trace h env ins) + answers_to c (pending h env ins))%nat
  = updates_from c ins.
Proof.
  intros Hc Hr. destruct (bot_trace h env ins Hc Hr) as (-> & Hbot & _).
  rewrite answers_to_app. unfold pending.
  pose proof (run_answers env ins _ c Hbot) as H. cbn [snd in_flight flat_map] in H.
  change (answers_to c pipeline_start) with 0%nat.
  change (answers_to c []) with 0%nat in H. lia.
Qed.

(** Two updates from the same chat, answered out of order of their
    handlers' steps: the second handler is at its end before the first. *)
Definition busy_day : list input :=
  [TelegramUpdate working bob_message; TelegramUpdate failing_provider bob_message]
  ++ repeat (Resume 1) 8 ++ repeat (Resume 0) 8.

Lemma bot_answers_every_update_witness :
  (answers_to 42 (process_trace working returning busy_day)
   + answers_to 42 (pending working returning busy_day))%nat
  = updates_from 42 busy_day
  /\ pending working returning busy_day = []
  /\ updates_from 42 busy_day = 2%nat.
Proof.
  split; [|split; vm_compute; reflexivity].
  apply (bot_answers_every_update working returning busy_day 42%Z); reflexivity.
Defined.

(** X14: with the configuration and a refresh token the process never
    exits by itself, whatever comes in. *)
Theorem bot_never_exits (h : Host) (env : Env) (ins : list input) :
  configured env = true -> refresh_token_present env = true ->
  filter is_exit (process_trace h env ins) = [].
Proof.
  intros Hc Hr. apply filter_none. now apply bot_no_exit.
Qed.

Lemma bot_never_exits_witness :
  filter is_exit (process_trace working returning first_day) = [].
Proof.
  apply (bot_never_exits working returning first_day); reflexivity.
Defined.

End ProcessFacts.

(** ** The consent flow *)

Module ConsentFacts.

Import App ExtractorFacts Samples Dispatcher Bridge Startup ProcessFacts.
Local Open Scope js_scope.

Definition is_response (e : event) : bool :=
  match e with
  | HttpSend _ => true
  | _ => false
  end.

Definition is_exchange (e : event) : bool :=
  match e with
  | GetToken _ => true
  | _ => false
  end.

(** X15: the handler of the callback answers every request exactly
    once, and asks the OAuth client for tokens exactly when the
    request has a code that is not empty. *)
Theorem oauth2callback_one_response (h : Host) (p : Process) (code : value) :
  (exists answer, filter is_response (snd (oauth2callback h p code)) = [HttpSend answer])
  /\ filter is_exchange (snd (oauth2callback h p code))
     = if ToBoolean code then [GetToken code] else [].
Proof.
  unfold oauth2callback.
  destruct (ToBoolean code); cbn [negb]; [|split; [eexists|]; reflexivity].
  destruct (cbind (getToken h code) (fun r => Get r (lit "tokens"))) as [tokens|e];
    [|split; [eexists|]; reflexivity].
  destruct (Get tokens (lit "refresh_token")) as [token|e];
    [|split; [eexists|]; reflexivity].
  destruct (ToBoolean token); split; try eexists; reflexivity.
Qed.

Lemma split_after (pre post t1 t2 : list event) (x : event) :
  Forall (fun e => is_exit e = false) t1 -> is_exit x = true ->
  t1 ++ t2 = pre ++ x :: post ->
  exists pre', t2 = pre' ++ x :: post.
Proof.
  intros Ht Hx. revert pre. induction Ht as [|e t1 He _ IH]; intros pre H.
  - now exists pre.
  - destruct pre as [|y pre]; cbn [app] in H; injection H as Hy Hrest.
    + subst e. congruence.
    + exact (IH pre Hrest).
Qed.

Lemma no_exit_inside (pre post t : list event) (c : Z) :
  Forall (fun e => is_exit e = false) t -> t <> pre ++ ProcessExit c :: post.
Proof.
  intros Hf ->. apply Forall_app in Hf. destruct Hf as [_ Hf].
  inversion_clear Hf as [|? ? Hx _]. discriminate Hx.
Qed.

(** In the consent flow nothing follows the exit. *)
Lemma run_exit_last (env : Env) (ins : list input) (r : Running)
  (pre post : list event) (c : Z) :
  consent_running r ->
  snd (run env r ins) = pre ++ ProcessExit c :: post -> post = [].
Proof.
  revert r pre. induction ins as [|i ins IH]; intros r pre Hr H.
  - destruct pre; discriminate H.
  - cbn [run] in H.
    destruct (react_consent env r i Hr) as [Hr1 [(He & _)|(Ht & Hx & _)]];
      destruct (react env r i) as [r1 t1]; cbn [fst snd] in *.
    + specialize (IH r1). destruct (run env r1 ins) as [r2 t2]. cbn [snd] in *.
      destruct (split_after pre post t1 t2 (ProcessExit c)
                  (callback_not_exit t1 He) eq_refl H) as [pre' H'].
      exact (IH pre' Hr1 H').
    + rewrite (run_exited env ins r1 Hx) in H. cbn [snd] in H. subst t1.
      destruct pre as [|y [|z pre]]; cbn [app] in H; try discriminate H.
      now injection H.
Qed.

(** X16: the exit of the process is the last thing it does: whatever
    comes in, nothing follows a [process.exit] in the trace. *)
Theorem exit_is_final
  (h : Host) (env : Env) (ins : list input) (pre post : list event) (c : Z) :
  process_trace h env ins = pre ++ ProcessExit c :: post -> post = [].
Proof.
  intros H. destruct (configured env) eqn:Hc.
  - destruct (refresh_token_present env) eqn:Hr.
    + destruct (no_exit_inside pre post _ c (bot_no_exit h env ins Hc Hr) H).
    + destruct (boot_without_token h env Hc Hr) as (Hb & Hcons & _).
      unfold process_trace in H. destruct (boot h env) as [p t]. cbn [fst snd] in *.
      subst t.
      assert (Hs : Forall (fun e => is_exit e = false) (consent_start h))
        by (unfold consent_start; repeat constructor).
      destruct (split_after pre post _ _ (ProcessExit c) Hs eq_refl H) as [pre' H'].
      exact (run_exit_last env ins (p, []) pre' post c Hcons H').
  - rewrite (unconfigured_trace h env ins Hc) in H.
    destruct pre as [|y [|z [|w pre]]]; cbn [app] in H; try discriminate H.
    now injection H.
Qed.

Lemma exit_is_final_witness :
  skipn 10 (process_trace granting first_run first_day) = [].
Proof.
  apply (exit_is_final granting first_run first_day
           (firstn 9 (process_trace granting first_run first_day))
           (skipn 10 (process_trace granting first_run first_day)) 0%Z).
  vm_compute. reflexivity.
Defined.

(** In the consent flow a timer is set only with the answer of
    success, and the process ends only by a timer. *)
Lemma run_exit_authorized (env : Env) (ins : list input) (r : Running) :
  consent_running r -> exit_timers (fst r) = 0%nat ->
  In (ProcessExit 0) (snd (run env r ins)) ->
  In (HttpSend authorized) (snd (run env r ins)).
Proof.
  revert r. induction ins as [|i ins IH]; intros r Hr Ht Hin; [destruct Hin|].
  cbn [run] in *.
  destruct (react_consent env r i Hr) as [Hr1 [(He & _ & Ha)|(_ & _ & Hn)]];
    [|contradiction].
  destruct (react env r i) as [r1 t1]; cbn [fst snd] in *.
  specialize (IH r1 Hr1). destruct (run env r1 ins) as [r2 t2]. cbn [snd] in *.
  destruct Ha as [Ha|Hsame]; [apply in_or_app; now left|].
  apply in_app_or in Hin. destruct Hin as [Hin|Hin].
  - pose proof (callback_not_exit t1 He) as Hf.
    rewrite Forall_forall in Hf. specialize (Hf _ Hin). discriminate Hf.
  - apply in_or_app. right. apply IH; [congruence|exact Hin].
Qed.

(** X17: the process ends with code 0 only in the consent flow, after
    it has answered a request of the callback with the text of
    success: a failed exchange, a request without code or a chat
    message never ends it. *)
Theorem exit_after_authorization (h : Host) (env : Env) (ins : list input) :
  In (ProcessExit 0) (process_trace h env ins) ->
  configured env = true
  /\ refresh_token_present env = false
  /\ In (HttpSend authorized) (process_trace h env ins).
Proof.
  intros Hin.
  destruct (configured env) eqn:Hc.
  2:{ rewrite (unconfigured_trace h env ins Hc) in Hin.
      destruct Hin as [H|[H|[]]]; discriminate H. }
  destruct (refresh_token_present env) eqn:Hr.
  - pose proof (bot_no_exit h env ins Hc Hr) as Hf.
    rewrite Forall_forall in Hf. specialize (Hf _ Hin). discriminate Hf.
  - repeat split.
    destruct (boot_without_token h env Hc Hr) as (Hb & Hcons & _ & Ht).
    unfold process_trace in *.
    destruct (boot h env) as [p t]. cbn [fst snd] in *. subst t.
    apply in_app_or in Hin. apply in_or_app. right.
    destruct Hin as [Hin|Hin];
      [destruct Hin as [H|[H|[H|[H|[]]]]]; discriminate H|].
    now apply run_exit_authorized.
Qed.

Lemma exit_after_authorization_witness :
  configured first_run = true
  /\ refresh_token_present first_run = false
  /\ In (HttpSend authorized) (process_trace granting first_run first_day).
Proof.
  apply (exit_after_authorization granting first_run first_day).
  vm_compute. tauto.
Defined.

End ConsentFacts.

(** ** Reading the message back *)

Module EnvelopeFacts.

Import App Samples Dispatcher EncodingFacts.

(** How a receiver reads a message (RFC 2822, section 2.1): the header
    lines, each ended by CRLF, up to the first empty line, and the body
    after that line.  [line_rev] is the line being read, [lines_rev] the
    lines read, both reversed; [None] when no empty line ends the
    headers. *)
Fixpoint read_headers (line_rev : jsstring) (lines_rev : list jsstring)
  (s : jsstring) : option (list jsstring * jsstring) :=
  match s with
  | [] => None
  | c :: rest =>
      match rest with
      | d :: rest' =>
          if ((c =? 13) && (d =? 10))%N then
            match line_rev with
            | [] => Some (rev lines_rev, rest')
            | _ :: _ => read_headers [] (rev line_rev :: lines_rev) rest'
            end
          else read_headers (c :: line_rev) lines_rev rest
      | [] => None
      end
  end.

Definition read_message (s : jsstring) : option (list jsstring * jsstring) :=
  read_headers [] [] s.

(** A text without carriage return, which can stand in a header line. *)
Definition one_line (s : jsstring) : Prop :=
  Forall (fun c => (c =? 13)%N = false) s.

Lemma read_headers_line (line rest line_rev : jsstring) (lines_rev : list jsstring) :
  one_line line ->
  read_headers line_rev lines_rev (line ++ CRLF ++ rest)
  = match rev line ++ line_rev with
    | [] => Some (rev lines_rev, rest)
    | _ :: _ => read_headers [] (rev (rev line ++ line_rev) :: lines_rev) rest
    end.
Proof.
  intros Hl. revert line_rev. induction Hl as [|c line Hc _ IH]; intros line_rev.
  - reflexivity.
  - cbn [app rev]. rewrite <- app_assoc. cbn [app]. rewrite <- IH.
    cbn [read_headers]. rewrite Hc. cbn [andb].
    destruct line; reflexivity.
Qed.

(** A line that is not empty is the next header. *)
Lemma read_headers_next (line rest : jsstring) (lines_rev : list jsstring) :
  one_line line -> line <> [] ->
  read_headers [] lines_rev (line ++ CRLF ++ rest)
  = read_headers [] (line :: lines_rev) rest.
Proof.
  intros Hl Hne. rewrite (read_headers_line line rest [] lines_rev Hl).
  rewrite app_nil_r, rev_involutive.
  destruct (rev line) eqn:E; [|reflexivity].
  apply (f_equal (@rev code_unit)) in E. rewrite rev_involutive in E. contradiction.
Qed.

Lemma one_line_app (a b : jsstring) : one_line a -> one_line b -> one_line (a ++ b).
Proof. intros Ha Hb. apply Forall_app. now split. Qed.

Lemma one_line_lit_from : one_line (lit "From: " ++ quoted (lit "Email Bot") ++ lit " <").
Proof. repeat constructor. Qed.

Definition from_line (userEmail : jsstring) : jsstring :=
  lit "From: " ++ quoted (lit "Email Bot") ++ lit " <" ++ userEmail ++ lit ">".

Definition content_type_line : jsstring :=
  lit "Content-Type: text/plain; charset=" ++ quoted (lit "UTF-8").

Lemma from_line_one (userEmail : jsstring) :
  one_line userEmail -> one_line (from_line userEmail) /\ from_line userEmail <> [].
Proof.
  intros Hu. split; [|discriminate]. unfold from_line, quoted. cbn [lit app].
  repeat (apply Forall_cons; [reflexivity|]).
  apply one_line_app; [exact Hu|]. repeat constructor.
Qed.

Lemma field_line_one (name value : jsstring) :
  one_line name -> one_line value -> name <> [] ->
  one_line (name ++ value) /\ name ++ value <> [].
Proof.
  intros Hn Hv Hne. split; [now apply one_line_app|].
  destruct name; [contradiction|discriminate].
Qed.

Lemma envelope_lines (userEmail recipient subject body : jsstring) :
  envelope userEmail recipient subject body
  = from_line userEmail ++ CRLF
    ++ (lit "To: " ++ recipient) ++ CRLF
    ++ (lit "Subject: " ++ subject) ++ CRLF
    ++ content_type_line ++ CRLF
    ++ [] ++ CRLF ++ body.
Proof.
  unfold envelope, from_line, content_type_line.
  repeat rewrite <- app_assoc. reflexivity.
Qed.

(** X18: when the sender, the recipient and the subject have no
    carriage return, a receiver that reads the message of [sendMail]
    finds exactly its four headers, in order, and after the empty line
    the body as it was given, whatever the body holds. *)
Theorem envelope_read_back (userEmail recipient subject body : jsstring) :
  one_line userEmail -> one_line recipient -> one_line subject ->
  read_message (envelope userEmail recipient subject body)
  = Some ([from_line userEmail;
           lit "To: " ++ recipient;
           lit "Subject: " ++ subject;
           content_type_line],
          body).
Proof.
  intros Hu Hr Hs. unfold read_message. rewrite envelope_lines.
  destruct (from_line_one userEmail Hu) as [H1 H1'].
  destruct (field_line_one (lit "To: ") recipient) as [H2 H2'];
    [repeat constructor|exact Hr|discriminate|].
  destruct (field_line_one (lit "Subject: ") subject) as [H3 H3'];
    [repeat constructor|exact Hs|discriminate|].
  assert (H4 : one_line content_type_line) by (repeat constructor).
  rewrite (read_headers_next _ _ _ H1 H1').
  rewrite (read_headers_next _ _ _ H2 H2').
  rewrite (read_headers_next _ _ _ H3 H3').
  rewrite (read_headers_next _ _ _ H4) by discriminate.
  rewrite (read_headers_line [] body [] _ (Forall_nil _)). reflexivity.
Qed.

Lemma envelope_read_back_witness :
  read_message
    (envelope (lit "bot@example.com") (lit "bob@example.com") (lit "Meeting update")
       (lit "The meeting moved to 3pm." ++ CRLF ++ CRLF ++ lit "See you."))
  = Some ([from_line (lit "bot@example.com");
           lit "To: " ++ lit "bob@example.com";
           lit "Subject: " ++ lit "Meeting update";
           content_type_line],
          lit "The meeting moved to 3pm." ++ CRLF ++ CRLF ++ lit "See you.").
Proof.
  apply (envelope_read_back (lit "bot@example.com") (lit "bob@example.com")
           (lit "Meeting update")
           (lit "The meeting moved to 3pm." ++ CRLF ++ CRLF ++ lit "See you."));
    repeat constructor.
Defined.

(** X19: the fields are not escaped: a subject that holds a line break
    followed by more text gives the message one more header, the text
    after the break, between the subject and the content type. *)
Theorem subject_injects_header
  (userEmail recipient subject extra body : jsstring) :
  one_line userEmail -> one_line recipient -> one_line subject ->
  one_line extra -> extra <> [] ->
  read_message (envelope userEmail recipient (subject ++ CRLF ++ extra) body)
  = Some ([from_line userEmail;
           lit "To: " ++ recipient;
           lit "Subject: " ++ subject;
           extra;
           content_type_line],
          body).
Proof.
  intros Hu Hr Hs He Hne. unfold read_message. rewrite envelope_lines.
  destruct (from_line_one userEmail Hu) as [H1 H1'].
  destruct (field_line_one (lit "To: ") recipient) as [H2 H2'];
    [repeat constructor|exact Hr|discriminate|].
  destruct (field_line_one (lit "Subject: ") subject) as [H3 H3'];
    [repeat constructor|exact Hs|discriminate|].
  assert (H4 : one_line content_type_line) by (repeat constructor).
  rewrite (read_headers_next _ _ _ H1 H1').
  rewrite (read_headers_next _ _ _ H2 H2').
  replace ((lit "Subject: " ++ subject ++ CRLF ++ extra) ++ CRLF
           ++ content_type_line ++ CRLF ++ [] ++ CRLF ++ body)
    with ((lit "Subject: " ++ subject) ++ CRLF
          ++ extra ++ CRLF ++ content_type_line ++ CRLF ++ [] ++ CRLF ++ body)
    by (repeat rewrite <- app_assoc; reflexivity).
  rewrite (read_headers_next _ _ _ H3 H3').
  rewrite (read_headers_next _ _ _ He Hne).
  rewrite (read_headers_next _ _ _ H4) by discriminate.
  rewrite (read_headers_line [] body [] _ (Forall_nil _)). reflexivity.
Qed.

Lemma subject_injects_header_witness :
  read_message
    (envelope (lit "bot@example.com") (lit "bob@example.com")
       (lit "Hi" ++ CRLF ++ lit "Bcc: eve@example.com") (lit "Hello"))
  = Some ([from_line (lit "bot@example.com");
           lit "To: " ++ lit "bob@example.com";
           lit "Subject: " ++ lit "Hi";
           lit "Bcc: eve@example.com";
           content_type_line],
          lit "Hello").
Proof.
  apply (subject_injects_header (lit "bot@example.com") (lit "bob@example.com")
           (lit "Hi") (lit "Bcc: eve@example.com") (lit "Hello"));
    try (repeat constructor); discriminate.
Defined.

End EnvelopeFacts.

(** ** More on the encoding *)

Module EncodingMore.

Import App Samples EncodingFacts.

Lemma base64url_alphabet (bs : list byte) :
  Forall is_byte bs -> Forall (fun c => url_index c <> None) (base64url bs).
Proof.
  unfold is_byte.
  assert (Hc : forall i, (i < 64)%N -> url_index (url_char i) <> None)
    by (intros i Hi; rewrite (url_index_char i Hi); discriminate).
  induction bs as [|a|a b|a b c bs IH] using list_ind3; intros Hb.
  - constructor.
  - inversion_clear Hb as [|? ? Ha _]. cbn [base64url].
    repeat (apply Forall_cons; [apply Hc; nlia|]). constructor.
  - inversion_clear Hb as [|? ? Ha Hb']. inversion_clear Hb' as [|? ? Hb _].
    cbn [base64url]. repeat (apply Forall_cons; [apply Hc; nlia|]). constructor.
  - inversion_clear Hb as [|? ? Ha Hb']. inversion_clear Hb' as [|? ? Hb Hc'].
    inversion_clear Hc' as [|? ? Hc'' Hrest].
    cbn [base64url app]. repeat (apply Forall_cons; [apply Hc; nlia|]).
    exact (IH Hrest).
Qed.

Lemma base64url_length (bs : list byte) :
  List.length (base64url bs) = ((4 * List.length bs + 2) / 3)%nat.
Proof.
  induction bs as [|a|a b|a b c bs IH] using list_ind3; try reflexivity.
  cbn [base64url app List.length]. rewrite IH.
  replace (4 * S (S (S (List.length bs))) + 2)%nat
    with ((4 * List.length bs + 2) + 4 * 3)%nat by lia.
  rewrite Nat.div_add by discriminate. lia.
Qed.

(** X20: the encoded message is made of the 64 characters of the
    URL-safe alphabet only, and its length is that of unpadded base64:
    four characters for three bytes, rounded up. *)
Theorem encodedMessage_shape (email : jsstring) :
  Forall (fun c => url_index c <> None) (encodedMessage email)
  /\ List.length (encodedMessage email)
     = ((4 * List.length (from email) + 2) / 3)%nat.
Proof.
  rewrite encodedMessage_eq. split.
  - apply base64url_alphabet, from_bytes.
  - apply base64url_length.
Qed.

Lemma from_ascii (s : jsstring) :
  Forall (fun c => (c < 128)%N) s -> from s = s.
Proof.
  induction 1 as [|c s Hc _ IH]; [reflexivity|]. cbn [from].
  replace (is_high_surrogate c) with false
    by (symmetry; unfold is_high_surrogate; apply andb_false_iff; left;
        apply N.leb_gt; lia).
  replace (is_low_surrogate c) with false
    by (symmetry; unfold is_low_surrogate; apply andb_false_iff; left;
        apply N.leb_gt; lia).
  unfold utf8. replace (c <? 128)%N with true by (symmetry; apply N.ltb_lt; lia).
  cbn [app]. now rewrite IH.
Qed.

(** X21: for a message of ASCII characters the bytes are the
    characters: decoding what [sendMail] submits gives the message
    itself. *)
Theorem ascii_message_decodes (email : jsstring) :
  Forall (fun c => (c < 128)%N) email ->
  from email = email
  /\ base64url_decode (encodedMessage email) = Some email.
Proof.
  intros Ha. pose proof (from_ascii email Ha) as Hf. split; [exact Hf|].
  rewrite encodedMessage_eq, decode_base64url by apply from_bytes.
  now rewrite Hf.
Qed.

Lemma ascii_message_decodes_witness :
  from (lit "To: bob@example.com") = lit "To: bob@example.com"
  /\ base64url_decode (encodedMessage (lit "To: bob@example.com"))
     = Some (lit "To: bob@example.com").
Proof.
  apply (ascii_message_decodes (lit "To: bob@example.com")).
  repeat (apply Forall_cons; [reflexivity|]). constructor.
Defined.

End EncodingMore.

(** ** Commands of plain strings *)

Module PlainCommands.

Import App RegExpFacts TrimFacts ExtractorFacts JSONFacts Samples Extractor PlainObjects.
Local Open Scope js_scope.

(** X22: when the content of the model's message is the text
    [{"email":"e","subject":"s","body":"b"}], with three strings that
    are not empty and need no escape, between a prose without opening
    brace and a prose without closing brace, [getEmailDataFromAI]
    returns the command of [e], [s] and [b]. *)
Theorem extract_plain_command
  (h : Host) (t : option jsstring) (data : value) (pre post e s b : jsstring) :
  chat_completion h (prompt_for (shown_text t)) = Normal data ->
  primary_content data
  = Some (pre ++ object_text (quoted e) (quoted s) (quoted b) ++ post) ->
  ~ In lbrace pre -> ~ In rbrace post ->
  plain e -> plain s -> plain b ->
  e <> [] -> s <> [] -> b <> [] ->
  snd (getEmailDataFromAI h (text_value t))
  = Normal (Some {| to := VString e; subject := VString s; body := VString b |}).
Proof.
  intros Hdata Hcontent Hpre Hpost He Hs Hb Hne Hns Hnb.
  destruct (plain_object_well_formed e s b He Hs Hb) as [[mid Hmid] Hparse].
  rewrite Hmid in *.
  rewrite getEmailDataFromAI_eq. cbn [snd].
  unfold extraction. rewrite Hdata. cbn [cbind].
  rewrite (message_text_primary _ _ Hcontent). cbn [cbind].
  unfold parsed_text. rewrite trim_object_nonempty. cbn [negb call_match cbind].
  rewrite (exec_trim_object _ _ _ Hpre Hpost), Hparse. cbn [cbind].
  rewrite (checked_fields_strings _ e s b); [reflexivity| | |];
    split; try reflexivity; assumption.
Qed.

Lemma extract_plain_command_witness :
  snd (getEmailDataFromAI
         (host (lit "Sure! " ++ bob_object ++ lit " Done.")
            (Normal token_response) (Normal sent_response))
         (text_value (Some request)))
  = Normal (Some {| to := VString (lit "bob@example.com");
                    subject := VString (lit "Meeting update");
                    body := VString (lit "The meeting moved to 3pm.") |}).
Proof.
  apply (extract_plain_command
           (host (lit "Sure! " ++ bob_object ++ lit " Done.")
              (Normal token_response) (Normal sent_response))
           (Some request)
           (answer (lit "Sure! " ++ bob_object ++ lit " Done."))
           (lit "Sure! ") (lit " Done.")
           (lit "bob@example.com") (lit "Meeting update")
           (lit "The meeting moved to 3pm."));
    try reflexivity; try discriminate;
    try (apply not_In_forallb; reflexivity);
    repeat (apply Forall_cons; [repeat split|]); constructor.
Defined.

End PlainCommands.
